(** * fashbot: the usernote archiver and the usernote formatter

    A shallow embedding of [usernote_archiver.py] (the incremental merge of
    the subreddit's usernotes into [archived_usernotes.json]) and of
    [fashbot.py] (the rendering of one user's notes as a table).

    Python dictionaries are finite maps ([gmap]), Python lists are lists,
    Python integers are [Z].  Exceptions are values of [exn]; the archiver's
    in-memory document [archived_usernotes] is the state of a small
    state-and-exception monad, so that what was already mutated when an
    exception propagates stays visible. *)

From Stdlib Require Import ZArith String Ascii.
From stdpp Require Import gmap strings list fin_maps.

(** ** Data model *)

(** One usernote, the JSON object [{"m":_, "t":_, "w":_, "n":_, "l":_}]. *)
Record Note := mkNote {
  note_m : Z;        (* "m": index into constants.users *)
  note_t : Z;        (* "t": timestamp, seconds *)
  note_w : Z;        (* "w": index into constants.warnings *)
  note_n : string;   (* "n": text *)
  note_l : string    (* "l": link token *)
}.

(** The value stored under [blob[user]].  The wiki stores an object
    [{"ns": [...]}]; line 80 of the archiver stores a bare string, which
    [json.dump] then writes to the archive file.  These are the two kinds
    of entries that the two programs read and write; other JSON values (an
    object without "ns", a note without "t") are outside this model. *)
Inductive user_entry :=
  | NotesObject (ns : list Note)
  | BareString (s : string).

Record Constants := mkConstants {
  users : list string;
  warnings : list string
}.

Record Usernotes := mkUsernotes {
  ver : Z;
  constants : Constants;
  blob : gmap string user_entry
}.

(** ** Exceptions *)

(** The two places of the archiver that can raise [AssertionError]. *)
Inductive assert_site :=
  | VersionMismatch     (* line 45 *)
  | ConstantsDrift.     (* lines 52 and 61 *)

Inductive exn :=
  | AssertionError (site : assert_site)
  | TypeError            (* subscripting a str with "ns" *)
  | KeyError
  | IndexError
  | UnboundLocalError
  | OverflowError        (* time.localtime: timestamp out of range *)
  | OSError.             (* time.localtime: the C function failed *)

Inductive outcome (A : Type) :=
  | Returned (a : A)
  | Raised (e : exn).
Arguments Returned {A} a.
Arguments Raised {A} e.

(** What [time.strftime("%Y-%m-%d %H:%M:%S", time.localtime(t))] gives:
    the formatted local time, or one of the two exceptions that
    [time.localtime] raises for a timestamp it cannot convert. *)
Inductive localtime_result :=
  | Formatted (text : string)
  | OutOfRange           (* OverflowError *)
  | LocaltimeFailed.     (* OSError *)

(** ** The archiver's monad: state [archived_usernotes], with exceptions *)

Module Archiver.

Definition M (A : Type) : Type := Usernotes → outcome A * Usernotes.

Definition ret {A} (a : A) : M A := λ st, (Returned a, st).
Definition raise {A} (e : exn) : M A := λ st, (Raised e, st).
Definition bind {A B} (c : M A) (k : A → M B) : M B :=
  λ st, match c st with
        | (Returned a, st') => k a st'
        | (Raised e, st') => (Raised e, st')
        end.
Definition get : M Usernotes := λ st, (Returned st, st).
Definition put (st : Usernotes) : M unit := λ _, (Returned tt, st).

Notation "x <- c ;; k" := (bind c (λ x, k))
  (at level 100, c at next level, right associativity).
Notation "c ;; k" := (bind c (λ _, k))
  (at level 100, right associativity).

Definition py_assert (b : bool) (site : assert_site) : M unit :=
  if b then ret tt else raise (AssertionError site).

(** [for x in l: body x] *)
Fixpoint for_each {A} (body : A → M unit) (l : list A) : M unit :=
  match l with
  | [] => ret tt
  | x :: r => body x ;; for_each body r
  end.

(** [enumerate(l)], counting from [i]. *)
Fixpoint enumerate_from {A} (i : nat) (l : list A) : list (nat * A) :=
  match l with
  | [] => []
  | x :: r => (i, x) :: enumerate_from (S i) r
  end.
Definition enumerate {A} (l : list A) : list (nat * A) := enumerate_from 0 l.

(** The two constant tables, handled by two copies of the same loop. *)
Inductive table := Users | Warnings.

Definition table_of (k : table) (c : Constants) : list string :=
  match k with Users => users c | Warnings => warnings c end.

Definition table_append (k : table) (x : string) (st : Usernotes) : Usernotes :=
  match k with
  | Users =>
      mkUsernotes (ver st)
        (mkConstants (users (constants st) ++ [x]) (warnings (constants st)))
        (blob st)
  | Warnings =>
      mkUsernotes (ver st)
        (mkConstants (users (constants st)) (warnings (constants st) ++ [x]))
        (blob st)
  end.

(** Lines 51-55 and 60-64:
<<
    try:
        assert mod == archived_usernotes["constants"]["users"][idx]
    except IndexError:
        archived_usernotes["constants"]["users"].append(mod)
>>
    [idx] comes from [enumerate], so it is never negative. *)
Definition update_constant (k : table) (p : nat * string) : M unit :=
  st <- get ;;
  match table_of k (constants st) !! fst p with
  | Some x => py_assert (String.eqb (snd p) x) ConstantsDrift
  | None => put (table_append k (snd p) st)
  end.

Definition update_constants (k : table) (remote : Usernotes) : M unit :=
  for_each (update_constant k) (enumerate (table_of k (constants remote))).

(** Lines 70-73: the flag loop over the user's archived notes. *)
Definition note_exists (note : Note) (archived_ns : list Note) : bool :=
  fold_left
    (λ flag users_archived_note,
       if (note_t note =? note_t users_archived_note)%Z then true else flag)
    archived_ns false.

Definition set_blob (b : gmap string user_entry) (st : Usernotes) : Usernotes :=
  mkUsernotes (ver st) (constants st) b.

(** Lines 70-77, the body of [for note in subreddit_usernotes["blob"][user]["ns"]].
    [archived_usernotes["blob"][user]["ns"]] is looked up anew for every
    note, so notes appended earlier in the same run are seen. *)
Definition archive_note (user : string) (note : Note) : M unit :=
  st <- get ;;
  match blob st !! user with
  | None => raise KeyError
  | Some (BareString _) => raise TypeError
  | Some (NotesObject archived_ns) =>
      if note_exists note archived_ns then ret tt
      else put (set_blob (<[user := NotesObject (archived_ns ++ [note])]> (blob st)) st)
  end.

(** Lines 68-80, the body of [for user in subreddit_usernotes["blob"]]. *)
Definition archive_user (user : string) (entry : user_entry) : M unit :=
  st <- get ;;
  match blob st !! user with
  | Some _ =>
      match entry with
      | NotesObject ns => for_each (archive_note user) ns
      | BareString _ => raise TypeError
      end
  | None =>
      (* archived_usernotes["blob"][user] = user *)
      put (set_blob (<[user := BareString user]> (blob st)) st)
  end.

(** Lines 67-80: [for user in subreddit_usernotes["blob"]].  The iteration
    order over the remote dictionary is the one of [map_fold]. *)
Definition users_loop (remote_blob : gmap string user_entry) : M unit :=
  map_fold (λ user entry done_so_far, done_so_far ;; archive_user user entry)
           (ret tt) remote_blob.

(** Lines 44-80: everything between loading and saving. *)
Definition merge (remote : Usernotes) : M unit :=
  st <- get ;;
  py_assert (ver st =? ver remote)%Z VersionMismatch ;;
  update_constants Users remote ;;
  update_constants Warnings remote ;;
  users_loop (blob remote).

(** [archive_usernotes]: [file] is the content of [archived_usernotes.json],
    [remote] the decoded wiki page.  The file is rewritten (lines 83-84) only
    when no exception has propagated. *)
Definition archive_usernotes (remote file : Usernotes) : outcome unit * Usernotes :=
  match merge remote file with
  | (Returned _, st) => (Returned tt, st)
  | (Raised e, _) => (Raised e, file)
  end.

End Archiver.

(** ** The formatter: [FashBot.get_usernotes] and [FashBot.handle_comment] *)

Module FashBot.

(** [l[i]] on a Python list: a negative index counts from the end, an
    index outside [-len, len) raises [IndexError]. *)
Definition py_getitem {A} (l : list A) (i : Z) : outcome A :=
  let len := Z.of_nat (length l) in
  let j := if (i <? 0)%Z then (i + len)%Z else i in
  if (0 <=? j)%Z && (j <? len)%Z then
    match l !! Z.to_nat j with
    | Some x => Returned x
    | None => Raised IndexError
    end
  else Raised IndexError.

(** [s.split(sep)] for a one-character separator: always at least one
    field, empty fields kept. *)
Fixpoint split (sep : ascii) (s : string) : list string :=
  match s with
  | EmptyString => [EmptyString]
  | String c r =>
      if Ascii.eqb c sep then EmptyString :: split sep r
      else match split sep r with
           | [] => [String c EmptyString]
           | field :: fields => String c field :: fields
           end
  end.

Definition newline : string := String (ascii_of_nat 10) EmptyString.

(** The local variables of [get_usernotes] that live across iterations of
    the loop over the notes.  [note_link] is unbound ([None]) until one of
    the three [if]s on lines 144-162 assigns it, and keeps its value from
    one iteration to the next. *)
Record locals := mkLocals {
  formatted_notes : list string;
  note_link : option string
}.

Section Render.

(** [time.strftime("%Y-%m-%d %H:%M:%S", time.localtime(t))]: depends on the
    time zone of the process and on the range of timestamps that the
    platform converts. *)
Variable strftime_localtime : Z → localtime_result.

(** [self.subreddit.display_name] *)
Variable display_name : string.

(** Lines 144-162: the three independent [if]s on the number of fields. *)
Definition assign_link (note_link_split : list string) (prev : option string)
  : option string :=
  let l1 :=
    if (length note_link_split =? 1)%nat then Some EmptyString else prev in
  let l2 :=
    if (length note_link_split =? 2)%nat then
      let thread_id := nth 1 note_link_split EmptyString in
      Some ("https://reddit.com/r/" +:+ display_name +:+ "/comments/" +:+ thread_id)
    else l1 in
  if (length note_link_split =? 3)%nat then
    let thread_id := nth 1 note_link_split EmptyString in
    let comment_id := nth 2 note_link_split EmptyString in
    Some ("https://reddit.com/r/" +:+ display_name +:+ "/comments/" +:+ thread_id
          +:+ "/_/" +:+ comment_id)
  else l2.

(** Lines 136-172, the body of [for note in notes[user]["ns"]]. *)
Definition format_note (c : Constants) (note : Note) (lc : locals) : outcome locals :=
  match py_getitem (users c) (note_m note) with
  | Raised e => Raised e
  | Returned note_mod =>
      match strftime_localtime (note_t note) with
      | OutOfRange => Raised OverflowError
      | LocaltimeFailed => Raised OSError
      | Formatted note_time =>
          match py_getitem (warnings c) (note_w note) with
          | Raised e => Raised e
          | Returned note_reason =>
              let note_text := note_n note in
              let note_link_split := split "," (note_l note) in
              match assign_link note_link_split (note_link lc) with
              | None => Raised UnboundLocalError
              | Some link =>
                  let row :=
                    if bool_decide (link = EmptyString) then
                      note_mod +:+ " | " +:+ note_time +:+ " | " +:+ note_reason
                        +:+ " | " +:+ note_text
                    else
                      note_mod +:+ " | [" +:+ note_time +:+ "](" +:+ link
                        +:+ ") | " +:+ note_reason +:+ " | " +:+ note_text in
                  Returned (mkLocals (formatted_notes lc ++ [row]) (Some link))
              end
          end
      end
  end.

Fixpoint format_notes (c : Constants) (ns : list Note) (lc : locals) : outcome locals :=
  match ns with
  | [] => Returned lc
  | note :: rest =>
      match format_note c note lc with
      | Raised e => Raised e
      | Returned lc' => format_notes c rest lc'
      end
  end.

Definition header : list string := ["Mod | Time | Reason | Note"; "- | - | - | - | -"].

(** [get_usernotes], from the decoded wiki page on (lines 133-176). *)
Definition get_usernotes (user : string) (usernotes : Usernotes) : outcome string :=
  let start := mkLocals [] None in
  let after_loop :=
    match blob usernotes !! user with
    | None => Returned start
    | Some (BareString _) => Raised TypeError
    | Some (NotesObject ns) => format_notes (constants usernotes) ns start
    end in
  match after_loop with
  | Raised e => Raised e
  | Returned lc =>
      let rows := formatted_notes lc in
      let rows := match rows with [] => rows | _ => header ++ rows end in
      Returned (String.concat newline rows)
  end.

(** [handle_comment], lines 88-91: the text handed to [comment.author.message]. *)
Definition handle_comment (parent_author : string) (usernotes : Usernotes)
  : outcome string :=
  match get_usernotes parent_author usernotes with
  | Raised e => Raised e
  | Returned text =>
      Returned (if bool_decide (text = EmptyString) then "No usernotes" else text)
  end.

End Render.

End FashBot.

(** ** The bot around the formatter: [FashBot.handle_message] and the
    comment loop of [FashBot.listen] *)

Module Bot.

(** What these two functions can raise: the exceptions of [exn], two more
    built-in ones, and whatever a collaborator raises (the Reddit API,
    [open]). *)
Inductive bot_exn :=
  | Builtin (e : exn)
  | ValueError           (* unpacking a list of the wrong length *)
  | NameError            (* a name that is bound nowhere *)
  | External (what : string).

Inductive result (A : Type) :=
  | Done (a : A)
  | Failed (e : bot_exn).
Arguments Done {A} a.
Arguments Failed {A} e.

(** A private message handed to [author.message]. *)
Record sent := mkSent {
  sent_to : string;
  sent_subject : string;
  sent_text : string
}.

Section HandleMessage.

Variable strftime_localtime : Z → localtime_result.
Variable display_name : string.

(** [message.subject.split()], splitting at white space. *)
Variable split_whitespace : string → list string.

(** [self.reddit.comment(id=...).author] and
    [self.reddit.submission(id=...).author]. *)
Variable comment_author : string → result string.
Variable submission_author : string → result string.

(** Lines 128-132 of [get_usernotes]: the wiki page, fetched and decoded. *)
Variable wiki : result Usernotes.

(** [open("dialogue/commands.txt").read()] *)
Variable commands_txt : result string.

(** [handle_message], lines 105-121.  [content] is bound by one of the two
    branches on [content_type] or not at all; the last line reads the name
    [usernotes], which neither the function nor the module binds. *)
Definition handle_message (author subject body : string) : result sent :=
  match split_whitespace subject with
  | [_; content_type; content_id; state] =>
      let content :=
        if String.eqb content_type "comment" then Some (comment_author content_id)
        else if String.eqb content_type "submission"
             then Some (submission_author content_id)
             else None in
      match content with
      | None => Failed (Builtin UnboundLocalError)
      | Some (Failed e) => Failed e
      | Some (Done content_author) =>
          match wiki with
          | Failed e => Failed e
          | Done usernotes =>
              match FashBot.get_usernotes strftime_localtime display_name
                      content_author usernotes with
              | Raised e => Failed (Builtin e)
              | Returned notes =>
                  match commands_txt with
                  | Failed e => Failed e
                  | Done commands => Failed NameError
                  end
              end
          end
      end
  | _ => Failed ValueError
  end.

End HandleMessage.

(** [needle in hay] on strings. *)
Fixpoint contains (needle hay : string) : bool :=
  String.prefix needle hay
  || match hay with
     | EmptyString => false
     | String _ rest => contains needle rest
     end.

(** [self.parsed = Deque(maxlen=200)]: appending to a full deque drops
    its oldest element. *)
Definition maxlen : nat := 200.

Definition deque_append (x : string) (parsed : list string) : list string :=
  if (length parsed <? maxlen)%nat then parsed ++ [x] else drop 1 parsed ++ [x].

Section Listen.

(** [created_utc] and [start_time] are floats; only their comparison is
    used. *)
Variable time : Type.
Variable before : time → time → bool.

Record Comment := mkComment {
  comment_id : string;
  created_utc : time;
  comment_author_name : string;
  comment_body : string
}.

Variable start_time : time.

(** [comment.author in mods] *)
Variable in_mods : string → bool.

(** [str.lower] *)
Variable lower : string → string.

(** [self.handle_comment(comment)], with everything it calls. *)
Variable handle_comment : Comment → result unit.

(** Lines 49-66 of [listen]: the loop over
    [self.subreddit.stream.comments(pause_after=1)], which yields [None]
    when no new comment is left.  The result holds the comments handed to
    [handle_comment], in order, the deque [self.parsed], and how the loop
    ended. *)
Fixpoint comment_loop (stream : list (option Comment)) (parsed : list string)
  : list Comment * list string * result unit :=
  match stream with
  | [] => ([], parsed, Done tt)
  | None :: _ => ([], parsed, Done tt)
  | Some comment :: rest =>
      if before (created_utc comment) start_time then comment_loop rest parsed
      else if bool_decide (comment_id comment ∈ parsed) then comment_loop rest parsed
      else if negb (in_mods (comment_author_name comment))
           then comment_loop rest parsed
      else if contains "!fashbot" (lower (comment_body comment)) then
        match handle_comment comment with
        | Failed e => ([comment], parsed, Failed e)
        | Done _ =>
            let '(handled, parsed', r) :=
              comment_loop rest (deque_append (comment_id comment) parsed) in
            (comment :: handled, parsed', r)
        end
      else comment_loop rest parsed
  end.

(** The tests a comment has to pass, apart from the one on [self.parsed]. *)
Definition summons (comment : Comment) : bool :=
  negb (before (created_utc comment) start_time)
  && in_mods (comment_author_name comment)
  && contains "!fashbot" (lower (comment_body comment)).

End Listen.

Arguments mkComment {time} _ _ _ _.
Arguments comment_id {time} _.
Arguments created_utc {time} _.
Arguments comment_author_name {time} _.
Arguments comment_body {time} _.

(** The last [n] elements of [l]. *)
Definition lastn {A} (n : nat) (l : list A) : list A := drop (length l - n) l.

End Bot.

(** ** The table, note by note *)

(** The indices [i] for which [l[i]] raises [IndexError]. *)
Definition out_of_range {A} (l : list A) (i : Z) : Prop :=
  (i < - Z.of_nat (length l) ∨ Z.of_nat (length l) ≤ i)%Z.

(** How often the character [sep] occurs in [s]. *)
Fixpoint occurrences (sep : ascii) (s : string) : nat :=
  match s with
  | EmptyString => 0
  | String c r => (if Ascii.eqb c sep then 1 else 0) + occurrences sep r
  end.

Section Rows.

Variable strftime_localtime : Z → localtime_result.
Variable display_name : string.

(** The row of one note, computed from the note alone: a token of two
    fields links to the submission, one of three fields to the comment,
    any other token gives the bare time.  The moderator is looked up
    first, then the time is formatted, then the warning is looked up; the
    first of the three that fails decides. *)
Definition note_row (c : Constants) (note : Note) : outcome string :=
  match FashBot.py_getitem (users c) (note_m note) with
  | Raised e => Raised e
  | Returned note_mod =>
      match strftime_localtime (note_t note) with
      | OutOfRange => Raised OverflowError
      | LocaltimeFailed => Raised OSError
      | Formatted note_time =>
          match FashBot.py_getitem (warnings c) (note_w note) with
          | Raised e => Raised e
          | Returned note_reason =>
              let linked link :=
                note_mod +:+ " | [" +:+ note_time +:+ "](" +:+ link +:+ ") | "
                  +:+ note_reason +:+ " | " +:+ note_n note in
              Returned
                match FashBot.split "," (note_l note) with
                | [_; thread_id] =>
                    linked ("https://reddit.com/r/" +:+ display_name
                            +:+ "/comments/" +:+ thread_id)
                | [_; thread_id; comment_id] =>
                    linked ("https://reddit.com/r/" +:+ display_name
                            +:+ "/comments/" +:+ thread_id +:+ "/_/" +:+ comment_id)
                | _ =>
                    note_mod +:+ " | " +:+ note_time +:+ " | " +:+ note_reason
                      +:+ " | " +:+ note_n note
                end
          end
      end
  end.

(** The rows of a sequence of notes; the first note that fails decides. *)
Fixpoint note_rows (c : Constants) (ns : list Note) : outcome (list string) :=
  match ns with
  | [] => Returned []
  | note :: rest =>
      match note_row c note with
      | Raised e => Raised e
      | Returned row =>
          match note_rows c rest with
          | Raised e => Raised e
          | Returned rows => Returned (row :: rows)
          end
      end
  end.

End Rows.

(** ** Specification-side definitions *)

(** The notes of [remote_ns] that the merge appends, as the specification
    words it: a remote note is appended when no note of the user's archived
    sequence, as it stands when the note is examined, has its timestamp.
    [seen] holds the timestamps of that sequence. *)
Fixpoint new_notes (seen : list Z) (remote_ns : list Note) : list Note :=
  match remote_ns with
  | [] => []
  | note :: rest =>
      if bool_decide (note_t note ∈ seen) then new_notes seen rest
      else note :: new_notes (seen ++ [note_t note]) rest
  end.

(** Two tables disagree at an index that both have. *)
Definition disagree (remote_l archived_l : list string) : Prop :=
  ∃ (i : nat) (x y : string),
    remote_l !! i = Some x ∧ archived_l !! i = Some y ∧ x ≠ y.

(** The entry that a returning merge leaves under [user], from the
    archived and the remote entry. *)
Definition entry_after (user : string) (archived remote : option user_entry)
    (after : option user_entry) : Prop :=
  match remote, archived with
  | None, _ => after = archived
  | Some _, None => after = Some (BareString user)
  | Some (NotesObject remote_ns), Some (NotesObject archived_ns) =>
      after =
      Some (NotesObject (archived_ns ++ new_notes (note_t <$> archived_ns) remote_ns))
  | Some (NotesObject remote_ns), Some (BareString s) =>
      remote_ns = [] ∧ after = Some (BareString s)
  | Some (BareString _), Some _ => False
  end.

(** The remote entry [remote] of [user] has nothing to add to the archived
    document [st]: the user is archived, and every remote note has the
    timestamp of an archived note. *)
Definition settled (user : string) (remote : user_entry) (st : Usernotes) : Prop :=
  match remote, blob st !! user with
  | NotesObject remote_ns, Some (NotesObject archived_ns) =>
      ∀ n, n ∈ remote_ns → note_t n ∈ note_t <$> archived_ns
  | NotesObject remote_ns, Some (BareString _) => remote_ns = []
  | _, _ => False
  end.

(** The entries of the wiki that the loop over the users gets through:
    a user the archive lacks always does; a user the archive has needs a
    notes object on the wiki, and an empty one if the archived entry is a
    bare string. *)
Definition acceptable (archived : option user_entry) (remote : user_entry) : Prop :=
  match archived, remote with
  | None, _ => True
  | Some (NotesObject _), NotesObject _ => True
  | Some (BareString _), NotesObject remote_ns => remote_ns = []
  | Some _, BareString _ => False
  end.

(** ** Concrete documents *)

Definition note_at (t : Z) (text : string) : Note := mkNote 0 t 0 text "0".

Definition the_constants : Constants := mkConstants ["mod1"] ["spam"].

(** "alice" archived with notes at 100 and 200, remote with notes at 200
    and 300. *)
Definition alice_archive : Usernotes :=
  mkUsernotes 6 the_constants
    {[ "alice" := NotesObject [note_at 100 "a"; note_at 200 "b"] ]}.
Definition alice_remote : Usernotes :=
  mkUsernotes 6 the_constants
    {[ "alice" := NotesObject [note_at 200 "b, as the wiki has it"; note_at 300 "c"] ]}.

(** "bob" is on the wiki and not yet in the archive. *)
Definition bob_archive : Usernotes := mkUsernotes 6 the_constants ∅.
Definition bob_remote : Usernotes :=
  mkUsernotes 6 the_constants {[ "bob" := NotesObject [note_at 100 "a"] ]}.

(** The archive is at version 1, the wiki at version 2. *)
Definition v1_archive : Usernotes := mkUsernotes 1 the_constants ∅.
Definition v2_remote : Usernotes := mkUsernotes 2 the_constants ∅.

(** The wiki has replaced the archive's first moderator. *)
Definition drift_archive : Usernotes :=
  mkUsernotes 6 (mkConstants ["mod1"; "mod2"] ["spam"]) ∅.
Definition drift_remote : Usernotes :=
  mkUsernotes 6 (mkConstants ["mod3"; "mod2"; "mod4"] ["spam"; "abuse"])
    {[ "bob" := NotesObject [note_at 100 "a"] ]}.

(** The wiki has one more moderator and one more warning. *)
Definition grown_remote : Usernotes :=
  mkUsernotes 6 (mkConstants ["mod1"; "mod2"] ["spam"; "abuse"])
    {[ "alice" := NotesObject [note_at 300 "c"] ]}.

(** What the archive file holds after these runs. *)
Definition alice_merged : Usernotes :=
  mkUsernotes 6 the_constants
    {[ "alice" := NotesObject [note_at 100 "a"; note_at 200 "b"; note_at 300 "c"] ]}.
Definition bob_merged : Usernotes :=
  mkUsernotes 6 the_constants {[ "bob" := BareString "bob" ]}.
Definition grown_merged : Usernotes :=
  mkUsernotes 6 (mkConstants ["mod1"; "mod2"] ["spam"; "abuse"])
    {[ "alice" := NotesObject [note_at 100 "a"; note_at 200 "b"; note_at 300 "c"] ]}.

(** The archive already holds "bob" as a bare string; the wiki has a
    note for him. *)
Definition stuck_archive : Usernotes :=
  mkUsernotes 6 the_constants
    (<[ "bob" := BareString "bob" ]>
       {[ "alice" := NotesObject [note_at 100 "a"] ]}).
Definition stuck_remote : Usernotes :=
  mkUsernotes 6 the_constants
    (<[ "bob" := NotesObject [note_at 100 "a"] ]>
       {[ "alice" := NotesObject [note_at 100 "a"; note_at 150 "new"] ]}).

(** A wiki page for the formatter: "carol" has one note per kind of link
    token, "dave" a first note whose token has four fields, "erin" none. *)
Definition fixed_time (t : Z) : localtime_result := Formatted "2019-03-01 12:00:00".

(** A clock that converts the timestamps of a signed 32-bit [time_t]. *)
Definition clock32 (t : Z) : localtime_result :=
  if ((- 2 ^ 31 <=? t) && (t <? 2 ^ 31))%Z then Formatted "2019-03-01 12:00:00"
  else OutOfRange.

(** "hal" has a note whose timestamp is out of that range and whose
    warning index does not resolve either. *)
Definition hal_wiki : Usernotes :=
  mkUsernotes 6 the_constants
    {[ "hal" := NotesObject [ mkNote 0 (2 ^ 63) 7 "too late" "0,a,b,c" ] ]}.

Definition carol_notes : list Note :=
  [ mkNote 0 1551441600 0 "plain" "0";
    mkNote 0 1551441600 0 "on a submission" "0,abc123";
    mkNote 0 1551441600 0 "on a comment" "0,abc123,def456";
    mkNote 0 1551441600 0 "four fields" "0,abc123,def456,ghi789" ].

Definition the_wiki : Usernotes :=
  mkUsernotes 6 the_constants
    (<[ "carol" := NotesObject carol_notes ]>
       (<[ "dave" := NotesObject [mkNote 0 1551441600 0 "four fields" "0,a,b,c"] ]>
          {[ "erin" := NotesObject [] ]})).

(** "gina" has a note whose moderator index counts from the end, then a
    note whose warning index is out of range. *)
Definition gina_wiki : Usernotes :=
  mkUsernotes 6 (mkConstants ["mod1"; "mod2"] ["spam"])
    {[ "gina" := NotesObject [ mkNote (-1) 1551441600 0 "from the end" "0";
                               mkNote 0 1551441600 1 "no such warning" "0" ] ]}.

(** A stream for the comment loop: times are integers, the moderators are
    "mod1" and "mod2", and handling a comment succeeds. *)
Definition is_a_mod (name : string) : bool :=
  bool_decide (name ∈ ["mod1"; "mod2"]).

Definition a_stream : list (option (Bot.Comment Z)) :=
  [ Some (Bot.mkComment "c1" 50%Z "mod1" "!fashbot");
    Some (Bot.mkComment "c2" 150%Z "user" "!fashbot");
    Some (Bot.mkComment "c3" 150%Z "mod2" "hello !FashBot please");
    Some (Bot.mkComment "c3" 150%Z "mod2" "hello !FashBot please");
    Some (Bot.mkComment "c4" 150%Z "mod1" "nothing to see");
    None;
    Some (Bot.mkComment "c5" 150%Z "mod1" "!fashbot") ].

(** [str.lower] on the letters A-Z. *)
Definition lower_ascii_char (c : ascii) : ascii :=
  let n := nat_of_ascii c in
  if ((65 <=? n) && (n <=? 90))%nat then ascii_of_nat (n + 32) else c.

Fixpoint lower_ascii (s : string) : string :=
  match s with
  | EmptyString => EmptyString
  | String c r => String (lower_ascii_char c) (lower_ascii r)
  end.

Definition a_pass : list (Bot.Comment Z) * list string * Bot.result unit :=
  Bot.comment_loop Z Z.ltb 100%Z is_a_mod lower_ascii (λ _, Bot.Done tt) a_stream [].

Definition c3 : Bot.Comment Z := Bot.mkComment "c3" 150%Z "mod2" "hello !FashBot please".

(** ** Running the archiver's monad *)

Import Archiver.

Lemma run_bind {A B} (c : M A) (k : A → M B) (st : Usernotes) :
  bind c k st =
  match c st with
  | (Returned a, st') => k a st'
  | (Raised e, st') => (Raised e, st')
  end.
Proof. reflexivity. Qed.

Lemma run_seq_returned {A B} (c : M A) (k : A → M B) st b st2 :
  bind c k st = (Returned b, st2) →
  ∃ a st1, c st = (Returned a, st1) ∧ k a st1 = (Returned b, st2).
Proof.
  rewrite run_bind. destruct (c st) as [[a|e] st1]; [eauto|discriminate].
Qed.

Lemma set_blob_same st : set_blob (blob st) st = st.
Proof. by destruct st. Qed.

(** ** The loops over the constant tables *)

Section ConstantsLoop.

Variable k : table.

Local Abbreviation tbl st := (table_of k (constants st)).

Lemma table_append_tbl x st : tbl (table_append k x st) = tbl st ++ [x].
Proof. by destruct k. Qed.

Lemma table_append_other k' x st :
  k' ≠ k → table_of k' (constants (table_append k x st)) = table_of k' (constants st).
Proof. by destruct k, k'. Qed.

Lemma table_append_ver x st : ver (table_append k x st) = ver st.
Proof. by destruct k. Qed.

Lemma table_append_blob x st : blob (table_append k x st) = blob st.
Proof. by destruct k. Qed.

(** One iteration of the loop. *)
Lemma update_loop_step x rem i st :
  for_each (update_constant k) (enumerate_from i (x :: rem)) st =
  match tbl st !! i with
  | Some y =>
      if String.eqb x y
      then for_each (update_constant k) (enumerate_from (S i) rem) st
      else (Raised (AssertionError ConstantsDrift), st)
  | None =>
      for_each (update_constant k) (enumerate_from (S i) rem) (table_append k x st)
  end.
Proof.
  simpl. unfold bind, update_constant, bind, get, py_assert. simpl.
  destruct (tbl st !! i) as [y|]; [|done]. by destruct (String.eqb x y).
Qed.

(** Whatever the outcome, the loop touches nothing but its own table, and
    that one only by appending. *)
Lemma update_loop_frame rem : ∀ i st r,
  r = for_each (update_constant k) (enumerate_from i rem) st →
  ver (snd r) = ver st ∧ blob (snd r) = blob st ∧
  (∀ k', k' ≠ k → table_of k' (constants (snd r)) = table_of k' (constants st)) ∧
  ∃ extra, tbl (snd r) = tbl st ++ extra.
Proof.
  induction rem as [|x rem IH]; intros i st r ->.
  { simpl. repeat split; auto. exists []. by rewrite app_nil_r. }
  rewrite update_loop_step.
  destruct (tbl st !! i) as [y|] eqn:Hi.
  - destruct (String.eqb x y); simpl.
    + by eapply IH.
    + repeat split; auto. exists []. by rewrite app_nil_r.
  - destruct (IH (S i) (table_append k x st) _ eq_refl) as (Hv & Hb & Ho & extra & He).
    rewrite table_append_ver in Hv. rewrite table_append_blob in Hb.
    rewrite table_append_tbl in He.
    repeat split; auto.
    + intros k' Hk. rewrite Ho by done. by apply table_append_other.
    + exists (x :: extra). rewrite He. by rewrite <- app_assoc.
Qed.

(** The only exception the loop raises is the failed assertion. *)
Lemma update_loop_raised rem : ∀ i st e,
  fst (for_each (update_constant k) (enumerate_from i rem) st) = Raised e →
  e = AssertionError ConstantsDrift.
Proof.
  induction rem as [|x rem IH]; intros i st e; [discriminate|].
  rewrite update_loop_step.
  destruct (tbl st !! i) as [y|] eqn:Hi.
  - destruct (String.eqb x y); simpl.
    + apply IH.
    + congruence.
  - apply IH.
Qed.

(** A disagreement at a common index makes the assertion fail. *)
Lemma update_loop_disagree rem : ∀ i st (j : nat) x y,
  rem !! j = Some x → tbl st !! (i + j)%nat = Some y → x ≠ y →
  fst (for_each (update_constant k) (enumerate_from i rem) st)
  = Raised (AssertionError ConstantsDrift).
Proof.
  induction rem as [|x0 rem IH]; intros i st j x y Hx Hy Hne; [done|].
  rewrite update_loop_step.
  destruct (tbl st !! i) as [y0|] eqn:Hi.
  - destruct (String.eqb x0 y0) eqn:Heq; simpl; [|done].
    apply String.eqb_eq in Heq. subst y0.
    destruct j as [|j]; simpl in Hx.
    + rewrite Nat.add_0_r in Hy. congruence.
    + apply (IH (S i) st j x y); auto.
      by rewrite Nat.add_succ_comm.
  - apply lookup_ge_None in Hi. apply lookup_lt_Some in Hy. lia.
Qed.

(** Without such a disagreement the loop returns, having appended the
    entries of the remote table that lie beyond the archived one. *)
Lemma update_loop_returned rem : ∀ (i : nat) st,
  (i ≤ length (tbl st))%nat →
  (∀ (j : nat) x y, rem !! j = Some x → tbl st !! (i + j)%nat = Some y → x = y) →
  ∃ st', for_each (update_constant k) (enumerate_from i rem) st = (Returned tt, st') ∧
         tbl st' = tbl st ++ drop (length (tbl st) - i) rem.
Proof.
  induction rem as [|x0 rem IH]; intros i st Hi Hag.
  { exists st. split; [done|]. by rewrite drop_nil, app_nil_r. }
  rewrite update_loop_step.
  destruct (tbl st !! i) as [y0|] eqn:Hl.
  - assert (x0 = y0) as <-.
    { apply (Hag 0%nat); [done|]. by rewrite Nat.add_0_r. }
    rewrite String.eqb_refl.
    apply lookup_lt_Some in Hl.
    destruct (IH (S i) st) as (st' & Hrun & Ht); [lia| |].
    { intros j x y Hx Hy. apply (Hag (S j)); [done|]. by rewrite <- Nat.add_succ_comm. }
    exists st'. split; [done|]. rewrite Ht. f_equal.
    replace (length (tbl st) - i)%nat with (S (length (tbl st) - S i)) by lia.
    done.
  - apply lookup_ge_None in Hl. assert (i = length (tbl st)) as Hi' by lia.
    destruct (IH (S i) (table_append k x0 st)) as (st' & Hrun & Ht).
    { rewrite table_append_tbl, length_app. simpl. lia. }
    { intros j x y Hx Hy. apply lookup_lt_Some in Hy.
      rewrite table_append_tbl, length_app in Hy. simpl in Hy. lia. }
    exists st'. split; [done|]. rewrite Ht, table_append_tbl, length_app. simpl.
    rewrite <- app_assoc. f_equal.
    replace (length (tbl st) + 1 - S i)%nat with 0%nat by lia.
    replace (length (tbl st) - i)%nat with 0%nat by lia. done.
Qed.

End ConstantsLoop.

(** ** The loop over one user's remote notes *)

Lemma note_exists_flag note archived_ns : ∀ flag,
  fold_left
    (λ flag users_archived_note,
       if (note_t note =? note_t users_archived_note)%Z then true else flag)
    archived_ns flag
  = flag || bool_decide (note_t note ∈ note_t <$> archived_ns).
Proof.
  induction archived_ns as [|a ans IH]; intros flag; simpl.
  - by rewrite orb_false_r.
  - rewrite IH. destruct (Z.eqb_spec (note_t note) (note_t a)) as [Heq|Hne].
    + simpl. symmetry. apply orb_true_iff. right.
      apply bool_decide_eq_true_2. rewrite Heq. apply elem_of_cons. by left.
    + destruct flag; [done|]. simpl. apply bool_decide_ext.
      rewrite elem_of_cons. tauto.
Qed.

Lemma note_exists_spec note archived_ns :
  note_exists note archived_ns = bool_decide (note_t note ∈ note_t <$> archived_ns).
Proof. unfold note_exists. by rewrite note_exists_flag. Qed.

Lemma archive_note_step user note rest st :
  for_each (archive_note user) (note :: rest) st =
  match blob st !! user with
  | None => (Raised KeyError, st)
  | Some (BareString _) => (Raised TypeError, st)
  | Some (NotesObject archived_ns) =>
      if note_exists note archived_ns
      then for_each (archive_note user) rest st
      else for_each (archive_note user) rest
             (set_blob (<[user := NotesObject (archived_ns ++ [note])]> (blob st)) st)
  end.
Proof.
  simpl. unfold bind, archive_note, bind, get. simpl.
  destruct (blob st !! user) as [[ans|s]|]; try done.
  by destruct (note_exists note ans).
Qed.

(** On an archived entry that holds notes, the loop returns and leaves
    the archived notes followed by the new ones. *)
Lemma archive_notes_returned user remote_ns : ∀ st archived_ns,
  blob st !! user = Some (NotesObject archived_ns) →
  for_each (archive_note user) remote_ns st =
  (Returned tt,
   set_blob (<[user := NotesObject
                 (archived_ns ++ new_notes (note_t <$> archived_ns) remote_ns)]>
               (blob st)) st).
Proof.
  induction remote_ns as [|note rest IH]; intros st ans Hl.
  - simpl. unfold ret. rewrite app_nil_r, insert_id by done.
    by rewrite set_blob_same.
  - rewrite archive_note_step, Hl, note_exists_spec. simpl.
    case_bool_decide as Hin.
    + by apply IH.
    + erewrite IH; [|simpl; apply lookup_insert_eq].
      simpl. rewrite insert_insert_eq, fmap_app, <- app_assoc. simpl.
      done.
Qed.

(** On an archived entry that is a bare string, the first remote note
    raises [TypeError]; nothing is changed. *)
Lemma archive_notes_bare user remote_ns st s :
  blob st !! user = Some (BareString s) →
  for_each (archive_note user) remote_ns st =
  match remote_ns with
  | [] => (Returned tt, st)
  | _ :: _ => (Raised TypeError, st)
  end.
Proof.
  intros Hl. destruct remote_ns as [|note rest]; [done|].
  by rewrite archive_note_step, Hl.
Qed.

(** ** The loop over the remote users *)

(** What one iteration leaves under each key of [blob], when it returns. *)
Lemma archive_user_returned user entry st st' :
  archive_user user entry st = (Returned tt, st') →
  ver st' = ver st ∧ constants st' = constants st ∧
  (∀ u, u ≠ user → blob st' !! u = blob st !! u) ∧
  match blob st !! user, entry with
  | None, _ => blob st' !! user = Some (BareString user)
  | Some (NotesObject archived_ns), NotesObject remote_ns =>
      blob st' !! user =
      Some (NotesObject (archived_ns ++ new_notes (note_t <$> archived_ns) remote_ns))
  | Some (BareString s), NotesObject remote_ns =>
      remote_ns = [] ∧ blob st' !! user = Some (BareString s)
  | Some _, BareString _ => False
  end.
Proof.
  unfold archive_user. rewrite run_bind. unfold get.
  destruct (blob st !! user) as [[ans|s]|] eqn:Hl.
  - destruct entry as [rns|s']; [|discriminate].
    rewrite (archive_notes_returned _ _ _ _ Hl). intros [= <-]. simpl.
    repeat split; auto.
    + intros u Hu. by rewrite lookup_insert_ne.
    + by rewrite lookup_insert_eq.
  - destruct entry as [rns|s']; [|discriminate].
    rewrite (archive_notes_bare _ _ _ _ Hl).
    destruct rns; [|discriminate]. intros [= <-]. auto.
  - unfold put. intros [= <-]. simpl. repeat split; auto.
    + intros u Hu. by rewrite lookup_insert_ne.
    + by rewrite lookup_insert_eq.
Qed.

Lemma users_loop_returned remote_blob : ∀ st st',
  users_loop remote_blob st = (Returned tt, st') →
  ver st' = ver st ∧ constants st' = constants st ∧
  ∀ u, entry_after u (blob st !! u) (remote_blob !! u) (blob st' !! u).
Proof.
  unfold users_loop.
  apply (map_fold_weak_ind (λ (r : M unit) (m : gmap string user_entry),
    ∀ st st', r st = (Returned tt, st') →
      ver st' = ver st ∧ constants st' = constants st ∧
      ∀ u, entry_after u (blob st !! u) (m !! u) (blob st' !! u))).
  - intros st st' [= <-]. split; [done|]. split; [done|].
    intros u. unfold entry_after. by rewrite lookup_empty.
  - intros user entry m r Hfresh IH st st' Hrun.
    apply run_seq_returned in Hrun as ([] & st1 & Hr & Hu).
    destruct (IH _ _ Hr) as (Hv1 & Hc1 & Hb1).
    destruct (archive_user_returned _ _ _ _ Hu) as (Hv2 & Hc2 & Hother & Hthis).
    split; [congruence|]. split; [congruence|].
    intros u. destruct (decide (u = user)) as [->|Hne].
    + specialize (Hb1 user). unfold entry_after in Hb1. rewrite Hfresh in Hb1.
      rewrite Hb1 in Hthis. unfold entry_after. rewrite lookup_insert_eq.
      destruct (blob st !! user) as [[ans|s]|], entry as [rns|s']; done.
    + rewrite lookup_insert_ne by done. rewrite Hother by done. apply Hb1.
Qed.

(** ** The whole merge *)

Lemma merge_unfold remote st :
  merge remote st =
  if (ver st =? ver remote)%Z then
    match update_constants Users remote st with
    | (Returned _, st1) =>
        match update_constants Warnings remote st1 with
        | (Returned _, st2) => users_loop (blob remote) st2
        | (Raised e, st2) => (Raised e, st2)
        end
    | (Raised e, st1) => (Raised e, st1)
    end
  else (Raised (AssertionError VersionMismatch), st).
Proof.
  unfold merge, bind, get, py_assert. simpl.
  destruct (ver st =? ver remote)%Z; [|done]. simpl.
  destruct (update_constants Users remote st) as [[[]|e] st1]; [|done].
  by destruct (update_constants Warnings remote st1) as [[[]|e] st2].
Qed.

(** A returning loop over a table means the tables agreed wherever both
    are defined, and tells what the table has become. *)
Lemma update_constants_returned k remote st st' :
  update_constants k remote st = (Returned tt, st') →
  ver st' = ver st ∧ blob st' = blob st ∧
  (∀ k', k' ≠ k → table_of k' (constants st') = table_of k' (constants st)) ∧
  table_of k (constants st') =
    table_of k (constants st)
    ++ drop (length (table_of k (constants st))) (table_of k (constants remote)).
Proof.
  unfold update_constants, enumerate. intros Hrun.
  destruct (update_loop_frame k (table_of k (constants remote)) 0%nat st _ eq_refl)
    as (Hv & Hb & Ho & _).
  rewrite Hrun in Hv, Hb, Ho. simpl in Hv, Hb, Ho.
  repeat split; auto.
  destruct (update_loop_returned k (table_of k (constants remote)) 0%nat st)
    as (st2 & Hrun2 & Ht); [lia| |].
  - intros j x y Hx Hy. destruct (decide (x = y)) as [|Hne]; [done|].
    rewrite (surjective_pairing (for_each _ _ st)) in Hrun.
    pose proof (update_loop_disagree k _ 0%nat st j x y Hx Hy Hne) as Hr.
    simpl in Hrun. congruence.
  - rewrite Hrun in Hrun2. injection Hrun2 as <-.
    by rewrite Ht, Nat.sub_0_r.
Qed.

Lemma update_constants_disagree k remote st :
  disagree (table_of k (constants remote)) (table_of k (constants st)) →
  fst (update_constants k remote st) = Raised (AssertionError ConstantsDrift).
Proof.
  intros (i & x & y & Hx & Hy & Hne).
  by apply (update_loop_disagree k _ 0%nat st i x y).
Qed.

(** What a returning merge has done. *)
Lemma merge_returned remote st st' :
  merge remote st = (Returned tt, st') →
  ver st = ver remote ∧ ver st' = ver st ∧
  (∀ k, table_of k (constants st') =
        table_of k (constants st)
        ++ drop (length (table_of k (constants st))) (table_of k (constants remote))) ∧
  (∀ u, entry_after u (blob st !! u) (blob remote !! u) (blob st' !! u)).
Proof.
  rewrite merge_unfold.
  destruct (Z.eqb_spec (ver st) (ver remote)) as [Hver|]; [|discriminate].
  destruct (update_constants Users remote st) as [[[]|e] st1] eqn:H1; [|discriminate].
  destruct (update_constants Warnings remote st1) as [[[]|e] st2] eqn:H2; [|discriminate].
  intros H3.
  apply update_constants_returned in H1 as (Hv1 & Hb1 & Ho1 & Ht1).
  apply update_constants_returned in H2 as (Hv2 & Hb2 & Ho2 & Ht2).
  apply users_loop_returned in H3 as (Hv3 & Hc3 & Hb3).
  split; [done|]. split; [congruence|]. split.
  - intros k. rewrite Hc3. destruct k.
    + rewrite (Ho2 Users) by done. exact Ht1.
    + rewrite Ht2. by rewrite (Ho1 Warnings).
  - intros u. specialize (Hb3 u). by rewrite Hb2, Hb1 in Hb3.
Qed.

(** A disagreement between the tables makes the merge raise
    [AssertionError], at the version check if the versions differ too. *)
Lemma merge_disagree remote st :
  disagree (users (constants remote)) (users (constants st)) ∨
  disagree (warnings (constants remote)) (warnings (constants st)) →
  fst (merge remote st) =
  Raised (AssertionError
            (if (ver st =? ver remote)%Z then ConstantsDrift else VersionMismatch)).
Proof.
  intros Hdis. rewrite merge_unfold.
  destruct (ver st =? ver remote)%Z; [|done].
  destruct (update_constants Users remote st) as [[[]|e] st1] eqn:H1.
  - assert (disagree (warnings (constants remote)) (warnings (constants st1))) as Hw.
    { destruct Hdis as [Hu|Hw].
      - apply (update_constants_disagree Users) in Hu. rewrite H1 in Hu. discriminate.
      - apply update_constants_returned in H1 as (_ & _ & Ho & _).
        specialize (Ho Warnings). simpl in Ho. rewrite Ho; done. }
    apply (update_constants_disagree Warnings) in Hw.
    destruct (update_constants Warnings remote st1) as [[[]|e] st2]; [discriminate|].
    simpl in *. done.
  - simpl. f_equal.
    apply (update_loop_raised Users (users (constants remote)) 0%nat st).
    unfold update_constants, enumerate in H1. simpl in H1. by rewrite H1.
Qed.

(** ** The appended notes *)

Lemma new_notes_sublist remote_ns : ∀ seen,
  new_notes seen remote_ns `sublist_of` remote_ns.
Proof.
  induction remote_ns as [|note rest IH]; intros seen; simpl.
  - constructor.
  - case_bool_decide; [apply sublist_cons|apply sublist_skip]; apply IH.
Qed.

Lemma new_notes_fresh remote_ns : ∀ seen n,
  n ∈ new_notes seen remote_ns → note_t n ∉ seen.
Proof.
  induction remote_ns as [|note rest IH]; intros seen n; simpl.
  - by intros ?%elem_of_nil.
  - case_bool_decide as Hin; [apply IH|].
    intros [->|Hn]%elem_of_cons; [done|].
    apply IH in Hn. rewrite not_elem_of_app in Hn. tauto.
Qed.

Lemma new_notes_covers remote_ns : ∀ seen n,
  n ∈ remote_ns →
  note_t n ∈ seen ∨ note_t n ∈ note_t <$> new_notes seen remote_ns.
Proof.
  induction remote_ns as [|note rest IH]; intros seen n; simpl.
  - by intros ?%elem_of_nil.
  - intros [->|Hn]%elem_of_cons.
    + case_bool_decide as Hin; [by left|]. right. simpl. apply elem_of_cons. by left.
    + case_bool_decide as Hin; [by apply IH|].
      destruct (IH (seen ++ [note_t note]) n Hn) as [Hs|Hs].
      * apply elem_of_app in Hs as [Hs|Hs]; [by left|].
        right. simpl. apply elem_of_cons. left.
        apply elem_of_cons in Hs as [Hs|Hs]; [done|by apply elem_of_nil in Hs].
      * right. simpl. apply elem_of_cons. by right.
Qed.

Lemma new_notes_one_per_timestamp remote_ns : ∀ seen,
  NoDup (note_t <$> new_notes seen remote_ns).
Proof.
  induction remote_ns as [|note rest IH]; intros seen; simpl.
  - constructor.
  - case_bool_decide as Hin; [apply IH|].
    simpl. apply NoDup_cons. split; [|apply IH].
    intros (n & Ht & Hn)%list_elem_of_fmap.
    apply new_notes_fresh in Hn. apply Hn. rewrite <- Ht.
    apply elem_of_app. right. apply elem_of_cons. by left.
Qed.

Lemma filter_agree_on {A} (P Q : A → Prop)
    `{!∀ x, Decision (P x), !∀ x, Decision (Q x)} (l : list A) :
  (∀ x, x ∈ l → P x ↔ Q x) → filter P l = filter Q l.
Proof.
  induction l as [|a l IH]; intros Hpq; [done|].
  assert (P a ↔ Q a) as Ha by (apply Hpq, elem_of_cons; by left).
  assert (filter P l = filter Q l) as Hl.
  { apply IH. intros x Hx. apply Hpq, elem_of_cons. by right. }
  destruct (decide (P a)).
  - rewrite !filter_cons_True by tauto. by rewrite Hl.
  - rewrite !filter_cons_False by tauto. done.
Qed.

(** When no two remote notes share a timestamp, the appended notes are
    the remote notes whose timestamp the archive did not have. *)
Lemma new_notes_filter remote_ns : ∀ seen,
  NoDup (note_t <$> remote_ns) →
  new_notes seen remote_ns = filter (λ n, note_t n ∉ seen) remote_ns.
Proof.
  induction remote_ns as [|note rest IH]; intros seen Hnd; simpl; [done|].
  simpl in Hnd. apply NoDup_cons in Hnd as [Hfirst Hnd].
  case_bool_decide as Hin.
  - rewrite filter_cons_False by tauto. by apply IH.
  - rewrite filter_cons_True by done. f_equal.
    rewrite IH by done. apply filter_agree_on.
    intros n Hn. rewrite not_elem_of_app. split; [tauto|].
    intros Hs. split; [done|].
    intros Heq%elem_of_cons. destruct Heq as [Heq|Heq].
    + apply Hfirst. rewrite <- Heq. by apply list_elem_of_fmap_2.
    + by apply elem_of_nil in Heq.
Qed.

Lemma new_notes_nil remote_ns seen :
  (∀ n, n ∈ remote_ns → note_t n ∈ seen) → new_notes seen remote_ns = [].
Proof.
  induction remote_ns as [|note rest IH]; intros Hall; simpl; [done|].
  rewrite bool_decide_eq_true_2.
  - apply IH. intros n Hn. apply Hall. apply elem_of_cons. by right.
  - apply Hall. apply elem_of_cons. by left.
Qed.

(** ** Running the merge again *)

(** A table that already holds every remote entry at its index is left as
    it is. *)
Lemma update_constants_settled k remote st :
  (∀ (j : nat) x, table_of k (constants remote) !! j = Some x →
                  table_of k (constants st) !! j = Some x) →
  update_constants k remote st = (Returned tt, st).
Proof.
  intros Hcov.
  destruct (update_loop_returned k (table_of k (constants remote)) 0%nat st)
    as (st' & Hrun & Ht); [lia| |].
  { intros j x y Hx Hy. apply Hcov in Hx. simpl in Hy. congruence. }
  unfold update_constants, enumerate. rewrite Hrun. f_equal.
  destruct (update_loop_frame k (table_of k (constants remote)) 0%nat st _ eq_refl)
    as (Hv & Hb & Ho & _).
  rewrite Hrun in Hv, Hb, Ho. simpl in Hv, Hb, Ho.
  assert (table_of k (constants st') = table_of k (constants st)) as Hsame.
  { rewrite Ht, Nat.sub_0_r, drop_ge, app_nil_r; [done|].
    destruct (decide (length (table_of k (constants remote))
                      ≤ length (table_of k (constants st)))%nat) as [|Hlt]; [done|].
    destruct (lookup_lt_is_Some_2 (table_of k (constants remote))
                (length (table_of k (constants st)))) as [x Hx]; [lia|].
    apply Hcov, lookup_lt_Some in Hx. lia. }
  clear Hrun Ht Hcov.
  destruct st as [v [us ws] b], st' as [v' [us' ws'] b'].
  destruct k; simpl in *.
  - pose proof (Ho Warnings) as Hw. simpl in Hw. rewrite Hw by done. congruence.
  - pose proof (Ho Users) as Hu. simpl in Hu. rewrite Hu by done. congruence.
Qed.

(** After a returning loop, the table holds every remote entry at its
    index. *)
Lemma update_constants_covers k remote st st' :
  update_constants k remote st = (Returned tt, st') →
  ∀ (j : nat) x, table_of k (constants remote) !! j = Some x →
                 table_of k (constants st') !! j = Some x.
Proof.
  intros Hrun j x Hx.
  pose proof (update_constants_returned _ _ _ _ Hrun) as (_ & _ & _ & Ht).
  rewrite Ht.
  destruct (table_of k (constants st) !! j) as [y|] eqn:Hy.
  - rewrite (lookup_app_l_Some _ _ _ _ Hy). f_equal.
    destruct (decide (x = y)) as [|Hne]; [done|].
    assert (disagree (table_of k (constants remote)) (table_of k (constants st)))
      as Hdis by (exists j, x, y; done).
    apply update_constants_disagree in Hdis. rewrite Hrun in Hdis. discriminate.
  - apply lookup_ge_None in Hy.
    rewrite lookup_app_r by done. rewrite lookup_drop. rewrite <- Hx. f_equal. lia.
Qed.

(** When every remote entry is settled, the loop over the users changes
    nothing. *)
Lemma users_loop_settled remote_blob : ∀ st,
  (∀ u e, remote_blob !! u = Some e → settled u e st) →
  users_loop remote_blob st = (Returned tt, st).
Proof.
  unfold users_loop.
  apply (map_fold_weak_ind (λ (r : M unit) (m : gmap string user_entry),
    ∀ st, (∀ u e, m !! u = Some e → settled u e st) → r st = (Returned tt, st))).
  - done.
  - intros user entry m r Hfresh IH st Hall. rewrite run_bind, IH.
    + specialize (Hall user entry (lookup_insert_eq _ _ _)).
      unfold settled in Hall. unfold archive_user. rewrite run_bind. unfold get.
      destruct entry as [remote_ns|s]; [|done].
      destruct (blob st !! user) as [[archived_ns|s]|] eqn:Hl; [| |done].
      * rewrite (archive_notes_returned _ _ _ _ Hl).
        rewrite (new_notes_nil _ _ Hall), app_nil_r, insert_id by done.
        by rewrite set_blob_same.
      * rewrite (archive_notes_bare _ _ _ _ Hl). by subst.
    + intros u e Hu. apply Hall. rewrite lookup_insert_ne; [done|]. congruence.
Qed.

(** A user whom the wiki has and the archive has not ends as the bare
    name, whatever the wiki holds for that user. *)
Lemma merge_new_user remote archive result user :
  merge remote archive = (Returned tt, result) →
  is_Some (blob remote !! user) → blob archive !! user = None →
  blob result !! user = Some (BareString user).
Proof.
  intros Hrun [e He] Ha. apply merge_returned in Hrun as (_ & _ & _ & Hb).
  specialize (Hb user). unfold entry_after in Hb. rewrite He, Ha in Hb.
  by destruct e.
Qed.

(** As long as the wiki brings no user that the archive lacks, merging the
    same wiki page into the result of a returning merge returns and
    changes nothing. *)
Lemma merge_again_known_users remote archive result :
  merge remote archive = (Returned tt, result) →
  (∀ u, is_Some (blob remote !! u) → is_Some (blob archive !! u)) →
  merge remote result = (Returned tt, result).
Proof.
  intros Hrun Hknown.
  pose proof (merge_returned _ _ _ Hrun) as (Hver & Hver' & _ & Hent).
  assert (∀ k (j : nat) x, table_of k (constants remote) !! j = Some x →
                           table_of k (constants result) !! j = Some x) as Hcov.
  { rewrite merge_unfold in Hrun.
    destruct (ver archive =? ver remote)%Z; [|discriminate].
    destruct (update_constants Users remote archive) as [[[]|e] st1] eqn:H1;
      [|discriminate].
    destruct (update_constants Warnings remote st1) as [[[]|e] st2] eqn:H2;
      [|discriminate].
    apply users_loop_returned in Hrun as (_ & Hc & _).
    pose proof (update_constants_covers _ _ _ _ H1) as Hu.
    pose proof (update_constants_covers _ _ _ _ H2) as Hw.
    apply update_constants_returned in H2 as (_ & _ & Ho & _).
    intros k j x Hx. rewrite Hc. destruct k.
    - rewrite (Ho Users) by done. by apply Hu.
    - by apply Hw. }
  rewrite merge_unfold.
  replace (ver result =? ver remote)%Z with true
    by (symmetry; apply Z.eqb_eq; congruence).
  rewrite (update_constants_settled Users) by apply Hcov.
  rewrite (update_constants_settled Warnings) by apply Hcov.
  apply users_loop_settled. intros u e He.
  specialize (Hent u). unfold entry_after in Hent. rewrite He in Hent.
  destruct (Hknown u) as [a Ha]; [by eexists|]. rewrite Ha in Hent.
  unfold settled.
  destruct e as [remote_ns|s], a as [archived_ns|s']; try done.
  - rewrite Hent. intros n Hn. rewrite fmap_app, elem_of_app.
    by apply new_notes_covers.
  - destruct Hent as [-> ->]. done.
Qed.

(** ** Properties of the archiver *)

(** C4.  When the version of the wiki page differs from the version of the
    archive, the merge raises the [AssertionError] of line 45
    ([VersionMismatch]); the in-memory document is as loaded, and the archive
    file is not rewritten. *)
Theorem version_mismatch_leaves_archive remote file :
  ver file ≠ ver remote →
  merge remote file = (Raised (AssertionError VersionMismatch), file) ∧
  archive_usernotes remote file = (Raised (AssertionError VersionMismatch), file).
Proof.
  intros Hne. assert (merge remote file
                      = (Raised (AssertionError VersionMismatch), file)) as Hm.
  { rewrite merge_unfold. by destruct (Z.eqb_spec (ver file) (ver remote)). }
  split; [done|]. unfold archive_usernotes. by rewrite Hm.
Qed.

Lemma version_mismatch_witness :
  archive_usernotes v2_remote v1_archive
  = (Raised (AssertionError VersionMismatch), v1_archive).
Proof.
  apply (version_mismatch_leaves_archive v2_remote v1_archive).
  vm_compute. discriminate.
Defined.

(** C5.  When the moderator tables, or the warning tables, of the wiki page
    and of the archive disagree at an index that both have, the run raises
    [AssertionError] and the archive file is left as it was.  The assertion
    that fails is the one on the tables ([ConstantsDrift]), unless the
    versions differ as well, in which case the assertion of line 45 has
    already failed. *)
Theorem constants_drift_persists_nothing remote file :
  disagree (users (constants remote)) (users (constants file)) ∨
  disagree (warnings (constants remote)) (warnings (constants file)) →
  archive_usernotes remote file =
  (Raised (AssertionError
             (if (ver file =? ver remote)%Z then ConstantsDrift else VersionMismatch)),
   file).
Proof.
  intros Hdis. apply merge_disagree in Hdis.
  unfold archive_usernotes. destruct (merge remote file) as [[[]|e] st].
  - discriminate.
  - simpl in Hdis. by rewrite Hdis.
Qed.

Lemma constants_drift_witness :
  archive_usernotes drift_remote drift_archive
  = (Raised (AssertionError ConstantsDrift), drift_archive).
Proof.
  apply (constants_drift_persists_nothing drift_remote drift_archive).
  left. exists 0%nat, "mod3", "mod1". vm_compute. repeat split. discriminate.
Defined.

(** C7.  When the merge returns, the notes that a user had in the archive
    are the leading notes of that user in the result: each one still there,
    equal to what it was, in the same order; the merge has only added notes
    behind them. *)
Theorem archived_notes_kept remote archive result user archived_ns :
  merge remote archive = (Returned tt, result) →
  blob archive !! user = Some (NotesObject archived_ns) →
  ∃ added, blob result !! user = Some (NotesObject (archived_ns ++ added)).
Proof.
  intros Hrun Ha. apply merge_returned in Hrun as (_ & _ & _ & Hb).
  specialize (Hb user). unfold entry_after in Hb. rewrite Ha in Hb.
  destruct (blob remote !! user) as [[remote_ns|s]|].
  - eauto.
  - done.
  - exists []. by rewrite app_nil_r.
Qed.

Lemma archived_notes_kept_witness :
  ∃ added,
    blob alice_merged !! "alice"
    = Some (NotesObject ([note_at 100 "a"; note_at 200 "b"] ++ added)).
Proof.
  apply (archived_notes_kept alice_remote alice_archive alice_merged "alice").
  - vm_compute. reflexivity.
  - vm_compute. reflexivity.
Defined.

(** C8.  When the merge returns, the moderator table of the result is the
    archive's moderator table followed by appended entries, and likewise
    the warning table; so every index that was valid before the merge
    holds the same value after it. *)
Theorem constants_append_only remote archive result :
  merge remote archive = (Returned tt, result) →
  (∃ extra, users (constants result) = users (constants archive) ++ extra) ∧
  (∃ extra, warnings (constants result) = warnings (constants archive) ++ extra) ∧
  (∀ (i : nat) x, users (constants archive) !! i = Some x →
                  users (constants result) !! i = Some x) ∧
  (∀ (i : nat) x, warnings (constants archive) !! i = Some x →
                  warnings (constants result) !! i = Some x).
Proof.
  intros Hrun. apply merge_returned in Hrun as (_ & _ & Ht & _).
  pose proof (Ht Users) as Hu. pose proof (Ht Warnings) as Hw. simpl in Hu, Hw.
  repeat split.
  - eauto.
  - eauto.
  - intros i x Hi. rewrite Hu. by apply lookup_app_l_Some.
  - intros i x Hi. rewrite Hw. by apply lookup_app_l_Some.
Qed.

Lemma constants_append_only_witness :
  users (constants grown_merged) !! 0%nat = Some "mod1" ∧
  warnings (constants grown_merged) !! 0%nat = Some "spam".
Proof.
  assert (merge grown_remote alice_archive = (Returned tt, grown_merged)) as Hrun
    by (vm_compute; reflexivity).
  destruct (constants_append_only grown_remote alice_archive grown_merged Hrun)
    as (_ & _ & Hu & Hw).
  split; [apply Hu|apply Hw]; reflexivity.
Defined.

(** C6.  When the merge returns, a user who has notes both in the archive
    and on the wiki ends with the archived notes followed by [added], where
    [added] picks remote notes in remote order: a remote note is appended
    when no note of the user's archived sequence has its timestamp at the
    moment the note is examined.  So no appended note has the timestamp of
    a pre-merge note, no two appended notes share a timestamp, and every
    remote timestamp is in the result; when the remote notes have pairwise
    different timestamps, [added] is exactly the remote notes whose
    timestamp no pre-merge note has. *)
Theorem dedup_by_timestamp remote archive result user archived_ns remote_ns :
  merge remote archive = (Returned tt, result) →
  blob archive !! user = Some (NotesObject archived_ns) →
  blob remote !! user = Some (NotesObject remote_ns) →
  ∃ added,
    blob result !! user = Some (NotesObject (archived_ns ++ added)) ∧
    added = new_notes (note_t <$> archived_ns) remote_ns ∧
    added `sublist_of` remote_ns ∧
    (∀ n, n ∈ added → note_t n ∉ note_t <$> archived_ns) ∧
    NoDup (note_t <$> added) ∧
    (∀ n, n ∈ remote_ns → note_t n ∈ note_t <$> (archived_ns ++ added)) ∧
    (NoDup (note_t <$> remote_ns) →
     added = filter (λ n, note_t n ∉ note_t <$> archived_ns) remote_ns).
Proof.
  intros Hrun Ha Hr. apply merge_returned in Hrun as (_ & _ & _ & Hb).
  specialize (Hb user). unfold entry_after in Hb. rewrite Ha, Hr in Hb.
  exists (new_notes (note_t <$> archived_ns) remote_ns).
  split; [done|]. split; [done|].
  split; [apply new_notes_sublist|].
  split; [apply new_notes_fresh|].
  split; [apply new_notes_one_per_timestamp|].
  split; [|apply new_notes_filter].
  intros n Hn. rewrite fmap_app, elem_of_app. by apply new_notes_covers.
Qed.

Lemma dedup_by_timestamp_alice :
  ∃ ns, blob alice_merged !! "alice" = Some (NotesObject ns) ∧
        note_t <$> ns = [100; 200; 300]%Z.
Proof.
  destruct (dedup_by_timestamp alice_remote alice_archive alice_merged "alice"
              [note_at 100 "a"; note_at 200 "b"]
              [note_at 200 "b, as the wiki has it"; note_at 300 "c"])
    as (added & Hl & Hadd & _).
  - vm_compute. reflexivity.
  - vm_compute. reflexivity.
  - vm_compute. reflexivity.
  - eexists. split; [exact Hl|]. rewrite Hadd. vm_compute. reflexivity.
Defined.

(** C1.  At a user who is on the wiki and not in the archive, line 80
    stores the user's name under the user's key: the result holds the
    string "bob" where the specification has bob's remote notes. *)
Theorem new_user_stored_as_name :
  merge bob_remote bob_archive = (Returned tt, bob_merged) ∧
  blob bob_merged !! "bob" = Some (BareString "bob") ∧
  blob bob_remote !! "bob" = Some (NotesObject [note_at 100 "a"]) ∧
  blob bob_merged !! "bob" ≠ blob bob_remote !! "bob".
Proof. vm_compute. repeat split. discriminate. Qed.

(** C3.  Merging the same wiki page a second time, into the archive that
    the first merge has written, raises [TypeError]: the first merge left
    the string "bob" under bob's key, and the second one subscripts it
    with "ns".  The second run therefore does not return the first result. *)
Theorem second_merge_raises :
  archive_usernotes bob_remote bob_archive = (Returned tt, bob_merged) ∧
  fst (merge bob_remote bob_merged) = Raised TypeError ∧
  archive_usernotes bob_remote bob_merged = (Raised TypeError, bob_merged).
Proof. vm_compute. repeat split. Qed.

(** ** Properties of the formatter *)

Import FashBot.

Section Formatter.

Variable strftime_localtime : Z → localtime_result.
Variable display_name : string.

(** The row of a note, without a link and with one. *)
Local Abbreviation bare_row note_mod note_time note_reason note :=
  (note_mod +:+ " | " +:+ note_time +:+ " | " +:+ note_reason
     +:+ " | " +:+ note_n note).
Local Abbreviation linked_row note_mod note_time link note_reason note :=
  (note_mod +:+ " | [" +:+ note_time +:+ "](" +:+ link
     +:+ ") | " +:+ note_reason +:+ " | " +:+ note_n note).


(** C2, as amended.  For a user who has no entry in the decoded notes, or
    whose entry has no notes, [get_usernotes] returns the empty string,
    and [handle_comment] (lines 89-90) turns it into the text it sends:
    exactly "No usernotes". *)
Theorem no_usernotes_text user usernotes :
  blob usernotes !! user = None ∨ blob usernotes !! user = Some (NotesObject []) →
  get_usernotes strftime_localtime display_name user usernotes = Returned EmptyString ∧
  handle_comment strftime_localtime display_name user usernotes = Returned "No usernotes".
Proof.
  intros Hentry.
  assert (get_usernotes strftime_localtime display_name user usernotes
          = Returned EmptyString) as Hget.
  { unfold get_usernotes. by destruct Hentry as [-> | ->]. }
  split; [done|]. unfold handle_comment. by rewrite Hget.
Qed.



End Formatter.

Lemma no_usernotes_text_witness :
  handle_comment fixed_time "neoliberal" "erin" the_wiki = Returned "No usernotes" ∧
  handle_comment fixed_time "neoliberal" "frank" the_wiki = Returned "No usernotes".
Proof.
  split.
  - apply (no_usernotes_text fixed_time "neoliberal" "erin" the_wiki).
    right. vm_compute. reflexivity.
  - apply (no_usernotes_text fixed_time "neoliberal" "frank" the_wiki).
    left. vm_compute. reflexivity.
Defined.

(** C2, as stated, fails on [get_usernotes]: for "erin", who has no notes,
    and for "frank", who has no entry, it returns the empty string, not
    "No usernotes". *)
Lemma get_usernotes_returns_empty_string :
  get_usernotes fixed_time "neoliberal" "erin" the_wiki = Returned EmptyString ∧
  get_usernotes fixed_time "neoliberal" "frank" the_wiki = Returned EmptyString ∧
  get_usernotes fixed_time "neoliberal" "erin" the_wiki ≠ Returned "No usernotes" ∧
  get_usernotes fixed_time "neoliberal" "frank" the_wiki ≠ Returned "No usernotes".
Proof. vm_compute. repeat split; discriminate. Qed.



(** The whole table for "carol": the fourth row carries the link of the
    third. *)
Example carol_table :
  get_usernotes fixed_time "neoliberal" "carol" the_wiki
  = Returned
      (String.concat newline
         [ "Mod | Time | Reason | Note";
           "- | - | - | - | -";
           "mod1 | 2019-03-01 12:00:00 | spam | plain";
           "mod1 | [2019-03-01 12:00:00](https://reddit.com/r/neoliberal/comments/abc123) | spam | on a submission";
           "mod1 | [2019-03-01 12:00:00](https://reddit.com/r/neoliberal/comments/abc123/_/def456) | spam | on a comment";
           "mod1 | [2019-03-01 12:00:00](https://reddit.com/r/neoliberal/comments/abc123/_/def456) | spam | four fields" ]).
Proof. vm_compute. reflexivity. Qed.

(** With a clock that converts 32-bit timestamps only, "hal"'s note at
    [2^63] raises [OverflowError] on line 139, before the warning lookup
    and before the link is looked at. *)
Example hal_overflow :
  get_usernotes clock32 "neoliberal" "hal" hal_wiki = Raised OverflowError.
Proof. vm_compute. reflexivity. Qed.

(** * Further properties of the archiver *)

(** ** Which exceptions the merge raises *)

Lemma archive_user_raised user entry st e :
  fst (archive_user user entry st) = Raised e → e = TypeError.
Proof.
  unfold archive_user. rewrite run_bind. unfold get.
  destruct (blob st !! user) as [[archived_ns|s]|] eqn:Hl.
  - destruct entry as [remote_ns|s']; simpl; [|congruence].
    by rewrite (archive_notes_returned _ _ _ _ Hl).
  - destruct entry as [remote_ns|s']; simpl; [|congruence].
    rewrite (archive_notes_bare _ _ _ _ Hl).
    destruct remote_ns; simpl; congruence.
  - done.
Qed.

Lemma users_loop_raised remote_blob : ∀ st e,
  fst (users_loop remote_blob st) = Raised e → e = TypeError.
Proof.
  unfold users_loop.
  apply (map_fold_weak_ind (λ (r : M unit) (m : gmap string user_entry),
    ∀ st e, fst (r st) = Raised e → e = TypeError)).
  - done.
  - intros user entry m r _ IH st e. rewrite run_bind.
    destruct (r st) as [[[]|e1] st1] eqn:Hr.
    + apply archive_user_raised.
    + simpl. intros [= <-]. apply (IH st). by rewrite Hr.
Qed.

(** ** When the merge returns *)

Lemma update_constants_agree k remote st :
  ¬ disagree (table_of k (constants remote)) (table_of k (constants st)) →
  ∃ st', update_constants k remote st = (Returned tt, st').
Proof.
  intros Hag.
  destruct (update_loop_returned k (table_of k (constants remote)) 0%nat st)
    as (st' & Hrun & _); [lia| |by exists st'].
  intros j x y Hx Hy. destruct (decide (x = y)) as [|Hne]; [done|].
  destruct Hag. by exists j, x, y.
Qed.

Lemma users_loop_acceptable remote_blob : ∀ st,
  (∀ u e, remote_blob !! u = Some e → acceptable (blob st !! u) e) →
  ∃ st', users_loop remote_blob st = (Returned tt, st') ∧
         ∀ u, remote_blob !! u = None → blob st' !! u = blob st !! u.
Proof.
  unfold users_loop.
  apply (map_fold_weak_ind (λ (r : M unit) (m : gmap string user_entry),
    ∀ st, (∀ u e, m !! u = Some e → acceptable (blob st !! u) e) →
          ∃ st', r st = (Returned tt, st') ∧
                 ∀ u, m !! u = None → blob st' !! u = blob st !! u)).
  - intros st _. by exists st.
  - intros user entry m r Hfresh IH st Hall.
    destruct (IH st) as (st1 & Hr & Hframe).
    { intros u e Hu. apply Hall. rewrite lookup_insert_ne; [done|]. congruence. }
    pose proof (Hall user entry (lookup_insert_eq _ _ _)) as Hacc.
    rewrite <- (Hframe user Hfresh) in Hacc.
    assert (∃ st2, archive_user user entry st1 = (Returned tt, st2)) as [st2 Hu].
    { unfold archive_user. rewrite run_bind. unfold get.
      destruct (blob st1 !! user) as [[archived_ns|s]|] eqn:Hl.
      - destruct entry as [remote_ns|s']; [|done].
        rewrite (archive_notes_returned _ _ _ _ Hl). eauto.
      - destruct entry as [remote_ns|s']; [|done]. simpl in Hacc. subst.
        rewrite (archive_notes_bare _ _ _ _ Hl). eauto.
      - unfold put. eauto. }
    exists st2. split; [by rewrite run_bind, Hr|].
    intros u Hu'. apply lookup_insert_None in Hu' as [Hm Hne].
    apply archive_user_returned in Hu as (_ & _ & Hother & _).
    rewrite Hother by done. by apply Hframe.
Qed.

(** X2.  The merge returns exactly when the versions are equal, neither
    table disagrees with its archived counterpart at a common index, and
    every user of the wiki who is already archived comes with a notes
    object (an empty one, if the archived entry is a bare string). *)
Theorem merge_returns_iff remote archive :
  (∃ result, merge remote archive = (Returned tt, result)) ↔
  ver archive = ver remote ∧
  ¬ disagree (users (constants remote)) (users (constants archive)) ∧
  ¬ disagree (warnings (constants remote)) (warnings (constants archive)) ∧
  ∀ u e, blob remote !! u = Some e → acceptable (blob archive !! u) e.
Proof.
  split.
  - intros [result Hrun].
    pose proof (merge_returned _ _ _ Hrun) as (Hver & _ & _ & Hent).
    split; [done|]. split; [|split].
    + intros Hdis. pose proof (merge_disagree remote archive (or_introl Hdis)) as Hr.
      rewrite Hrun in Hr. discriminate.
    + intros Hdis. pose proof (merge_disagree remote archive (or_intror Hdis)) as Hr.
      rewrite Hrun in Hr. discriminate.
    + intros u e He. specialize (Hent u). unfold entry_after in Hent.
      rewrite He in Hent. unfold acceptable.
      destruct (blob archive !! u) as [[archived_ns|s]|], e as [remote_ns|s'];
        try done. by destruct Hent.
  - intros (Hver & Hu & Hw & Hacc). rewrite merge_unfold.
    rewrite (proj2 (Z.eqb_eq _ _) Hver).
    destruct (update_constants_agree Users remote archive Hu) as [st1 H1].
    rewrite H1.
    pose proof (update_constants_returned _ _ _ _ H1) as (_ & Hb1 & Ho1 & _).
    destruct (update_constants_agree Warnings remote st1) as [st2 H2].
    { pose proof (Ho1 Warnings) as Hw1. simpl in *. by rewrite Hw1. }
    rewrite H2.
    pose proof (update_constants_returned _ _ _ _ H2) as (_ & Hb2 & _ & _).
    destruct (users_loop_acceptable (blob remote) st2) as (st3 & H3 & _).
    { intros u e He. rewrite Hb2, Hb1. by apply Hacc. }
    by exists st3.
Qed.

Lemma merge_returns_iff_witness :
  ver alice_archive = ver alice_remote ∧
  ¬ disagree (users (constants alice_remote)) (users (constants alice_archive)).
Proof.
  destruct (proj1 (merge_returns_iff alice_remote alice_archive)) as (Hv & Hu & _).
  - exists alice_merged. vm_compute. reflexivity.
  - done.
Defined.

(** ** What a returning merge leaves *)

(** X3.  A returning merge removes no user and invents none: the users of
    the result are those of the archive together with those of the wiki,
    and the entry of a user who is not on the wiki is what it was. *)
Theorem merge_users remote archive result :
  merge remote archive = (Returned tt, result) →
  dom (blob result) = dom (blob archive) ∪ dom (blob remote) ∧
  ∀ u, blob remote !! u = None → blob result !! u = blob archive !! u.
Proof.
  intros Hrun. apply merge_returned in Hrun as (_ & _ & _ & Hent). split.
  - apply set_eq. intros u. rewrite elem_of_union, !elem_of_dom.
    specialize (Hent u). unfold entry_after in Hent.
    destruct (blob remote !! u) as [e|].
    + assert (is_Some (blob result !! u)) as Hres.
      { destruct e as [remote_ns|s], (blob archive !! u) as [[archived_ns|s']|];
          try done; try (by rewrite Hent).
        destruct Hent as [_ ->]. done. }
      split; [by right|done].
    + rewrite Hent. split; [by left|]. intros [?|[? ?]]; done.
  - intros u Hu. specialize (Hent u). unfold entry_after in Hent.
    by rewrite Hu in Hent.
Qed.

Lemma merge_users_witness :
  dom (blob grown_merged) = dom (blob alice_archive) ∪ dom (blob grown_remote).
Proof.
  apply (merge_users grown_remote alice_archive grown_merged).
  vm_compute. reflexivity.
Defined.

(** X4.  After a returning merge each table of the result is the archived
    table followed by the entries that the wiki has beyond its length, so
    every index of the wiki's table holds the wiki's entry in the result:
    a note taken from the wiki refers to the same moderator and the same
    warning in the archive.  The version is the common version. *)
Theorem merge_tables remote archive result :
  merge remote archive = (Returned tt, result) →
  ver result = ver remote ∧
  users (constants result)
  = users (constants archive)
    ++ drop (length (users (constants archive))) (users (constants remote)) ∧
  warnings (constants result)
  = warnings (constants archive)
    ++ drop (length (warnings (constants archive))) (warnings (constants remote)) ∧
  (∀ (i : nat) x, users (constants remote) !! i = Some x →
                  users (constants result) !! i = Some x) ∧
  (∀ (i : nat) x, warnings (constants remote) !! i = Some x →
                  warnings (constants result) !! i = Some x).
Proof.
  intros Hrun.
  pose proof (merge_returned _ _ _ Hrun) as (Hver & Hver' & Ht & _).
  assert (∀ k (i : nat) x, table_of k (constants remote) !! i = Some x →
                           table_of k (constants result) !! i = Some x) as Hcov.
  { intros k i x Hx. rewrite Ht.
    destruct (table_of k (constants archive) !! i) as [y|] eqn:Hy.
    - rewrite (lookup_app_l_Some _ _ _ _ Hy). f_equal.
      destruct (decide (x = y)) as [|Hne]; [done|].
      assert (disagree (table_of k (constants remote))
                       (table_of k (constants archive))) as Hdis
        by (exists i, x, y; done).
      assert (fst (merge remote archive) ≠ Returned tt) as Hno.
      { rewrite merge_disagree; [done|]. destruct k; [by left|by right]. }
      by rewrite Hrun in Hno.
    - apply lookup_ge_None in Hy.
      rewrite lookup_app_r by done. rewrite lookup_drop. rewrite <- Hx.
      f_equal. lia. }
  split; [congruence|]. split; [apply (Ht Users)|]. split; [apply (Ht Warnings)|].
  split; [apply (Hcov Users)|apply (Hcov Warnings)].
Qed.

Lemma merge_tables_witness :
  users (constants grown_merged) !! 1%nat = Some "mod2" ∧
  warnings (constants grown_merged) !! 1%nat = Some "abuse".
Proof.
  assert (merge grown_remote alice_archive = (Returned tt, grown_merged)) as Hrun
    by (vm_compute; reflexivity).
  destruct (merge_tables grown_remote alice_archive grown_merged Hrun)
    as (_ & _ & _ & Hu & Hw).
  split; [apply Hu|apply Hw]; reflexivity.
Defined.

(** X5.  The merge keeps timestamps unique: when no two archived notes of
    a user share a timestamp, no two notes of that user do after a
    returning merge. *)
Theorem merge_keeps_timestamps_unique remote archive result user archived_ns ns :
  merge remote archive = (Returned tt, result) →
  blob archive !! user = Some (NotesObject archived_ns) →
  NoDup (note_t <$> archived_ns) →
  blob result !! user = Some (NotesObject ns) →
  NoDup (note_t <$> ns).
Proof.
  intros Hrun Ha Hnd Hr. apply merge_returned in Hrun as (_ & _ & _ & Hent).
  specialize (Hent user). unfold entry_after in Hent. rewrite Ha, Hr in Hent.
  destruct (blob remote !! user) as [[remote_ns|s]|]; [| done |congruence].
  injection Hent as ->. rewrite fmap_app. apply NoDup_app.
  split; [done|]. split; [|apply new_notes_one_per_timestamp].
  intros t Ht (n & -> & Hn)%list_elem_of_fmap.
  by apply new_notes_fresh in Hn.
Qed.

Lemma merge_keeps_timestamps_unique_witness :
  NoDup (note_t <$> [note_at 100 "a"; note_at 200 "b"; note_at 300 "c"]).
Proof.
  apply (merge_keeps_timestamps_unique alice_remote alice_archive alice_merged
           "alice" [note_at 100 "a"; note_at 200 "b"]).
  - vm_compute. reflexivity.
  - vm_compute. reflexivity.
  - compute_done.
  - vm_compute. reflexivity.
Defined.

(** X6.  Running the archiver again on the same wiki page, right after a
    run that returned, returns and rewrites the file with the same
    content, provided the wiki had no user that the archive lacked. *)
Theorem second_run_changes_nothing remote file file' :
  archive_usernotes remote file = (Returned tt, file') →
  (∀ u, is_Some (blob remote !! u) → is_Some (blob file !! u)) →
  archive_usernotes remote file' = (Returned tt, file').
Proof.
  unfold archive_usernotes at 1.
  destruct (merge remote file) as [[[]|e] st] eqn:Hrun; [|discriminate].
  intros [= <-] Hknown. unfold archive_usernotes.
  by rewrite (merge_again_known_users _ _ _ Hrun Hknown).
Qed.

Lemma second_run_changes_nothing_witness :
  archive_usernotes alice_remote alice_merged = (Returned tt, alice_merged).
Proof.
  apply (second_run_changes_nothing alice_remote alice_archive alice_merged).
  - vm_compute. reflexivity.
  - intros u [e He].
    destruct (decide (u = "alice")) as [->|Hne]; [by eexists|].
    unfold alice_remote in He. simpl in He.
    rewrite lookup_singleton_ne in He by done. discriminate.
Defined.

(** X7.  Once the archive holds a bare string for a user, every run
    against a wiki page that has a note for that user raises, and the file
    stays as it is; the exception is [TypeError] when the versions are
    equal and the tables do not disagree. *)
Theorem bare_string_blocks_the_archive remote file user s note rest :
  blob file !! user = Some (BareString s) →
  blob remote !! user = Some (NotesObject (note :: rest)) →
  ∃ e, archive_usernotes remote file = (Raised e, file) ∧
       (ver file = ver remote →
        ¬ disagree (users (constants remote)) (users (constants file)) →
        ¬ disagree (warnings (constants remote)) (warnings (constants file)) →
        e = TypeError).
Proof.
  intros Hf Hr. unfold archive_usernotes.
  destruct (merge remote file) as [[[]|e] st] eqn:Hrun.
  - apply merge_returned in Hrun as (_ & _ & _ & Hent).
    specialize (Hent user). unfold entry_after in Hent. rewrite Hf, Hr in Hent.
    by destruct Hent.
  - exists e. split; [done|]. intros Hver Hu Hw.
    rewrite merge_unfold in Hrun. rewrite (proj2 (Z.eqb_eq _ _) Hver) in Hrun.
    destruct (update_constants_agree Users remote file Hu) as [st1 H1].
    rewrite H1 in Hrun.
    pose proof (update_constants_returned _ _ _ _ H1) as (_ & _ & Ho1 & _).
    destruct (update_constants_agree Warnings remote st1) as [st2 H2].
    { pose proof (Ho1 Warnings) as Hw1. simpl in *. by rewrite Hw1. }
    rewrite H2 in Hrun.
    apply (users_loop_raised (blob remote) st2). by rewrite Hrun.
Qed.

Lemma bare_string_blocks_the_archive_witness :
  ∃ e, archive_usernotes stuck_remote stuck_archive = (Raised e, stuck_archive).
Proof.
  destruct (bare_string_blocks_the_archive stuck_remote stuck_archive
              "bob" "bob" (note_at 100 "a") []) as (e & He & _).
  - vm_compute. reflexivity.
  - vm_compute. reflexivity.
  - by exists e.
Defined.

(** * Further properties of the formatter *)

(** ** Splitting the link token *)

Lemma split_not_nil sep s : split sep s ≠ [].
Proof.
  destruct s as [|c r]; simpl; [done|].
  destruct (Ascii.eqb c sep); [done|]. by destruct (split sep r).
Qed.

(** X8.  Joining the fields of [s.split(sep)] with [sep] gives [s] back. *)
Theorem split_join sep s :
  String.concat (String sep EmptyString) (split sep s) = s.
Proof.
  induction s as [|c r IH]; simpl; [done|].
  destruct (Ascii.eqb_spec c sep) as [->|Hne].
  - pose proof (split_not_nil sep r) as Hnil.
    destruct (split sep r) as [|field fields]; [done|].
    simpl in *. by rewrite IH.
  - pose proof (split_not_nil sep r) as Hnil.
    destruct (split sep r) as [|field fields]; [done|].
    destruct fields as [|field' fields]; simpl in *; by rewrite <- IH.
Qed.

(** X9.  [s.split(sep)] has one field more than [s] has separators, and no
    field contains the separator: the kind of link of a note is decided by
    the number of commas of its token. *)
Theorem split_fields sep s :
  length (split sep s) = S (occurrences sep s) ∧
  Forall (λ field, occurrences sep field = 0%nat) (split sep s).
Proof.
  induction s as [|c r [IHlen IHall]]; simpl.
  - split; [done|]. by repeat constructor.
  - destruct (Ascii.eqb c sep) eqn:Hc.
    + split; [simpl; by rewrite IHlen|]. constructor; [done|]. exact IHall.
    + destruct (split sep r) as [|field fields]; [done|].
      split; [exact IHlen|]. inversion IHall as [|? ? Hfield Hfields]; subst.
      constructor; [|done]. simpl. by rewrite Hc.
Qed.

(** ** Indexing the constant tables *)

(** [l[i]] returns the element at [i] for [0 <= i < len(l)], the element
    at [len(l) + i] for [-len(l) <= i < 0], and raises [IndexError] for
    every other index. *)
Lemma py_getitem_bounds {A} (l : list A) (i : Z) :
  let len := Z.of_nat (length l) in
  ((0 ≤ i < len)%Z →
   ∃ x, l !! Z.to_nat i = Some x ∧ py_getitem l i = Returned x) ∧
  ((- len ≤ i < 0)%Z →
   ∃ x, l !! Z.to_nat (len + i) = Some x ∧ py_getitem l i = Returned x) ∧
  ((i < - len ∨ len ≤ i)%Z → py_getitem l i = Raised IndexError).
Proof.
  intros len. unfold py_getitem. fold len. repeat split.
  - intros Hi. destruct (Z.ltb_spec i 0); [lia|].
    destruct (Z.leb_spec 0 i); [|lia]. destruct (Z.ltb_spec i len); [|lia]. simpl.
    destruct (lookup_lt_is_Some_2 l (Z.to_nat i)) as [x Hx]; [lia|].
    exists x. by rewrite Hx.
  - intros Hi. destruct (Z.ltb_spec i 0); [|lia].
    destruct (Z.leb_spec 0 (i + len)); [|lia].
    destruct (Z.ltb_spec (i + len) len); [|lia]. simpl.
    destruct (lookup_lt_is_Some_2 l (Z.to_nat (i + len))) as [x Hx]; [lia|].
    exists x. rewrite Hx. split; [|done]. by rewrite Z.add_comm.
  - intros Hi. destruct (Z.ltb_spec i 0).
    + destruct (Z.leb_spec 0 (i + len)); [|done].
      destruct (Z.ltb_spec (i + len) len); [|done]. lia.
    + destruct (Z.leb_spec 0 i); [|done].
      destruct (Z.ltb_spec i len); [|done]. lia.
Qed.

Lemma py_getitem_raised {A} (l : list A) (i : Z) e :
  py_getitem l i = Raised e → e = IndexError ∧ out_of_range l i.
Proof.
  intros Hraise. split.
  - unfold py_getitem in Hraise.
    destruct (_ && _) in Hraise; [|congruence].
    destruct (_ !! _) in Hraise; congruence.
  - unfold out_of_range.
    destruct (py_getitem_bounds l i) as (Hpos & Hneg & _).
    destruct (decide (0 ≤ i < Z.of_nat (length l))%Z) as [Hin|Hout].
    { destruct (Hpos Hin) as (x & _ & Hx). congruence. }
    destruct (decide (- Z.of_nat (length l) ≤ i < 0)%Z) as [Hin|Hout'].
    { destruct (Hneg Hin) as (x & _ & Hx). congruence. }
    lia.
Qed.

Lemma py_getitem_out_of_range {A} (l : list A) (i : Z) :
  out_of_range l i → py_getitem l i = Raised IndexError.
Proof. intros Hout. by apply py_getitem_bounds. Qed.

Section IndexErrors.

Variable strftime_localtime : Z → localtime_result.
Variable display_name : string.

Lemma format_note_out_of_range c note lc :
  out_of_range (users c) (note_m note) ∨
  (∃ note_time, strftime_localtime (note_t note) = Formatted note_time) ∧
  out_of_range (warnings c) (note_w note) →
  format_note strftime_localtime display_name c note lc = Raised IndexError.
Proof.
  intros Hout. unfold format_note.
  destruct (py_getitem (users c) (note_m note)) as [note_mod|e] eqn:Hm.
  - destruct Hout as [Hout|[[note_time Ht] Hout]].
    + rewrite (py_getitem_out_of_range _ _ Hout) in Hm. discriminate.
    + by rewrite Ht, (py_getitem_out_of_range _ _ Hout).
  - by apply py_getitem_raised in Hm as [-> _].
Qed.


End IndexErrors.

(** ** The table as a whole *)

Section Table.

Variable strftime_localtime : Z → localtime_result.
Variable display_name : string.

Lemma format_note_as_row c note lc :
  (length (split "," (note_l note)) ≤ 3)%nat →
  match note_row strftime_localtime display_name c note with
  | Raised e => format_note strftime_localtime display_name c note lc = Raised e
  | Returned row =>
      ∃ link, format_note strftime_localtime display_name c note lc
              = Returned (mkLocals (formatted_notes lc ++ [row]) link)
  end.
Proof.
  intros Hlen. unfold note_row, format_note.
  destruct (py_getitem (users c) (note_m note)) as [note_mod|e]; [|done].
  destruct (strftime_localtime (note_t note)) as [note_time| |]; [|done..].
  destruct (py_getitem (warnings c) (note_w note)) as [note_reason|e]; [|done].
  pose proof (split_not_nil "," (note_l note)) as Hnil.
  destruct (split "," (note_l note)) as [|f0 [|f1 [|f2 [|f3 fields]]]];
    [done| | | |simpl in Hlen; lia]; eexists; reflexivity.
Qed.

Lemma format_notes_as_rows c ns : ∀ lc,
  Forall (λ note, (length (split "," (note_l note)) ≤ 3)%nat) ns →
  match note_rows strftime_localtime display_name c ns with
  | Raised e => format_notes strftime_localtime display_name c ns lc = Raised e
  | Returned rows =>
      ∃ link, format_notes strftime_localtime display_name c ns lc
              = Returned (mkLocals (formatted_notes lc ++ rows) link)
  end.
Proof.
  induction ns as [|note rest IH]; intros lc Hall; simpl.
  - exists (note_link lc). rewrite app_nil_r. by destruct lc.
  - apply Forall_cons in Hall as [Hnote Hrest].
    pose proof (format_note_as_row c note lc Hnote) as Hstep.
    destruct (note_row strftime_localtime display_name c note) as [row|e].
    + destruct Hstep as [link ->].
      specialize (IH (mkLocals (formatted_notes lc ++ [row]) link) Hrest).
      destruct (note_rows strftime_localtime display_name c rest) as [rows|e].
      * destruct IH as [link' ->]. exists link'. simpl.
        by rewrite <- app_assoc.
      * done.
    + by rewrite Hstep.
Qed.

(** X11.  When every link token of the user has at most three fields, the
    text of [get_usernotes] is the header followed by one row per note, in
    the order of the notes, each row computed from its note alone; the
    first note whose moderator index, timestamp or warning index fails
    makes the whole call raise that note's exception, and no text is
    returned. *)
Theorem table_note_by_note user usernotes ns :
  blob usernotes !! user = Some (NotesObject ns) →
  Forall (λ note, (length (split "," (note_l note)) ≤ 3)%nat) ns →
  get_usernotes strftime_localtime display_name user usernotes =
  match note_rows strftime_localtime display_name (constants usernotes) ns with
  | Raised e => Raised e
  | Returned [] => Returned EmptyString
  | Returned (row :: rows) =>
      Returned (String.concat newline (header ++ row :: rows))
  end.
Proof.
  intros Hentry Hall. unfold get_usernotes. rewrite Hentry.
  pose proof (format_notes_as_rows (constants usernotes) ns (mkLocals [] None) Hall)
    as Hloop.
  destruct (note_rows strftime_localtime display_name (constants usernotes) ns)
    as [rows|e].
  - destruct Hloop as [link ->]. simpl. by destruct rows.
  - by rewrite Hloop.
Qed.




End Table.

Section Abort.

Variable strftime_localtime : Z → localtime_result.
Variable display_name : string.

Lemma format_notes_app c pre : ∀ rest lc,
  format_notes strftime_localtime display_name c (pre ++ rest) lc =
  match format_notes strftime_localtime display_name c pre lc with
  | Returned lc' => format_notes strftime_localtime display_name c rest lc'
  | Raised e => Raised e
  end.
Proof.
  induction pre as [|note pre IH]; intros rest lc; simpl; [done|].
  by destruct (format_note strftime_localtime display_name c note lc).
Qed.

(** X14.  A note whose moderator index lies outside its table, or whose
    time is converted and whose warning index lies outside its table,
    makes [get_usernotes] raise [IndexError], also when the notes before
    it have been formatted: the rows built so far are dropped. *)
Theorem index_error_drops_the_table user usernotes pre note post lc :
  let c := constants usernotes in
  blob usernotes !! user = Some (NotesObject (pre ++ note :: post)) →
  format_notes strftime_localtime display_name c pre (mkLocals [] None)
  = Returned lc →
  out_of_range (users c) (note_m note) ∨
  (∃ note_time, strftime_localtime (note_t note) = Formatted note_time) ∧
  out_of_range (warnings c) (note_w note) →
  get_usernotes strftime_localtime display_name user usernotes = Raised IndexError.
Proof.
  intros c Hentry Hpre Hout. unfold get_usernotes.
  rewrite Hentry. fold c. rewrite format_notes_app, Hpre. simpl.
  by rewrite (format_note_out_of_range _ _ _ _ _ Hout).
Qed.

End Abort.

Lemma table_note_by_note_witness :
  get_usernotes fixed_time "neoliberal" "gina" gina_wiki = Raised IndexError.
Proof.
  rewrite (table_note_by_note fixed_time "neoliberal" "gina" gina_wiki
             [ mkNote (-1) 1551441600 0 "from the end" "0";
               mkNote 0 1551441600 1 "no such warning" "0" ]).
  - vm_compute. reflexivity.
  - vm_compute. reflexivity.
  - repeat constructor; vm_compute; lia.
Defined.



Lemma index_error_drops_the_table_witness :
  get_usernotes fixed_time "neoliberal" "gina" gina_wiki = Raised IndexError.
Proof.
  apply (index_error_drops_the_table fixed_time "neoliberal" "gina" gina_wiki
           [mkNote (-1) 1551441600 0 "from the end" "0"]
           (mkNote 0 1551441600 1 "no such warning" "0") []
           (mkLocals ["mod2 | 2019-03-01 12:00:00 | spam | from the end"]
                     (Some EmptyString))).
  - vm_compute. reflexivity.
  - vm_compute. reflexivity.
  - right. split; [by eexists|]. right. vm_compute. discriminate.
Defined.

(** * The bot around the formatter *)

Import Bot.

(** X15.  [handle_message] never sends a message: whatever the subject,
    the collaborators and the wiki page, it ends in an exception, and a
    subject that does not split into exactly four words ends in
    [ValueError]. *)
Theorem handle_message_never_sends
    (strftime_localtime : Z → localtime_result) (display_name : string)
    (split_whitespace : string → list string)
    (comment_author submission_author : string → result string)
    (wiki : result Usernotes) (commands_txt : result string)
    (author subject body : string) :
  let run :=
    handle_message strftime_localtime display_name split_whitespace
      comment_author submission_author wiki commands_txt author subject body in
  (∃ e, run = Failed e) ∧
  (length (split_whitespace subject) ≠ 4%nat → run = Failed ValueError).
Proof.
  intros run. unfold run, handle_message. split.
  - destruct (split_whitespace subject) as [|w0 [|w1 [|w2 [|w3 [|w4 ws]]]]];
      try (by eexists).
    destruct (String.eqb w1 "comment").
    + destruct (comment_author w2); [|by eexists].
      destruct wiki; [|by eexists].
      destruct (get_usernotes _ _ _ _); [|by eexists].
      destruct commands_txt; by eexists.
    + destruct (String.eqb w1 "submission"); [|by eexists].
      destruct (submission_author w2); [|by eexists].
      destruct wiki; [|by eexists].
      destruct (get_usernotes _ _ _ _); [|by eexists].
      destruct commands_txt; by eexists.
  - intros Hlen.
    destruct (split_whitespace subject) as [|w0 [|w1 [|w2 [|w3 [|w4 ws]]]]];
      try done.
Qed.

(** ** The comment loop *)

Lemma lastn_short {A} (n : nat) (l : list A) :
  (length l ≤ n)%nat → lastn n l = l.
Proof.
  intros Hlen. unfold lastn. by replace (length l - n)%nat with 0%nat by lia.
Qed.

Lemma length_lastn {A} (n : nat) (l : list A) : (length (lastn n l) ≤ n)%nat.
Proof. unfold lastn. rewrite length_drop. lia. Qed.

Lemma lastn_app_lastn {A} (n : nat) (l k : list A) :
  lastn n (lastn n l ++ k) = lastn n (l ++ k).
Proof.
  unfold lastn. rewrite !length_app, length_drop.
  destruct (decide (length l ≤ n)%nat) as [Hle|Hgt].
  - replace (length l - n)%nat with 0%nat by lia. by rewrite Nat.sub_0_r.
  - rewrite !drop_app, drop_drop, length_drop. f_equal; f_equal; lia.
Qed.

Lemma lastn_keeps_the_end {A} (n : nat) (l k : list A) x :
  (length k ≤ n)%nat → x ∈ k → x ∈ lastn n (l ++ k).
Proof.
  intros Hlen Hx. unfold lastn. rewrite length_app.
  destruct (decide (length l + length k - n ≤ length l)%nat) as [Hle|Hgt]; [|lia].
  rewrite drop_app_le by done. apply elem_of_app. by right.
Qed.

Lemma deque_append_lastn x parsed :
  (length parsed ≤ maxlen)%nat →
  deque_append x parsed = lastn maxlen (parsed ++ [x]).
Proof.
  intros Hlen. unfold deque_append.
  destruct (Nat.ltb_spec (length parsed) maxlen) as [Hlt|Hge].
  - rewrite lastn_short; [done|]. rewrite length_app. simpl. lia.
  - unfold lastn. rewrite length_app. simpl.
    replace (length parsed + 1 - maxlen)%nat with 1%nat by lia.
    rewrite drop_app_le; [done|]. unfold maxlen in *. lia.
Qed.

Section ListenProperties.

Variable time : Type.
Variable before : time → time → bool.
Variable start_time : time.
Variable in_mods : string → bool.
Variable lower : string → string.
Variable handle_comment : Comment time → result unit.

Local Abbreviation loop :=
  (comment_loop time before start_time in_mods lower handle_comment).
Local Abbreviation summoning := (summons time before start_time in_mods lower).

(** One iteration on a comment. *)
Lemma comment_loop_step comment rest parsed :
  loop (Some comment :: rest) parsed =
  if summoning comment && negb (bool_decide (comment_id comment ∈ parsed)) then
    match handle_comment comment with
    | Failed e => ([comment], parsed, Failed e)
    | Done _ =>
        let '(handled, parsed', r) :=
          loop rest (deque_append (comment_id comment) parsed) in
        (comment :: handled, parsed', r)
    end
  else loop rest parsed.
Proof.
  simpl. unfold summons.
  destruct (before (created_utc comment) start_time); [done|].
  destruct (bool_decide (comment_id comment ∈ parsed)).
  { simpl. by rewrite andb_false_r. }
  destruct (in_mods (comment_author_name comment)); [|done].
  by destruct (contains "!fashbot" (lower (comment_body comment))).
Qed.

(** X16.  The comments handed to [handle_comment] are comments of the
    stream, in the order of the stream, and each of them is not older
    than the start of the bot, is written by a moderator, and contains
    "!fashbot" once lowered. *)
Theorem handled_are_summons stream : ∀ parsed handled parsed' r,
  comment_loop time before start_time in_mods lower handle_comment stream parsed
  = (handled, parsed', r) →
  (Some <$> handled) `sublist_of` stream ∧
  Forall (λ comment,
            before (created_utc comment) start_time = false ∧
            in_mods (comment_author_name comment) = true ∧
            contains "!fashbot" (lower (comment_body comment)) = true) handled.
Proof.
  induction stream as [|[comment|] rest IH]; intros parsed handled parsed' r.
  - intros [= <- <- <-]. split; constructor.
  - rewrite comment_loop_step.
    destruct (summoning comment && _) eqn:Hq.
    + apply andb_true_iff in Hq as [Hs _]. unfold summons in Hs.
      apply andb_true_iff in Hs as [Hs Hbang].
      apply andb_true_iff in Hs as [Hold Hmod]. apply negb_true_iff in Hold.
      destruct (handle_comment comment) as [[]|e].
      * destruct (loop rest _) as [[handled1 parsed1] r1] eqn:Hrest.
        intros [= <- <- <-]. destruct (IH _ _ _ _ Hrest) as [Hsub Hall].
        split; [by apply sublist_skip|]. by constructor.
      * intros [= <- <- <-]. split.
        -- simpl. apply sublist_skip, sublist_nil_l.
        -- by repeat constructor.
    + intros Hrest. destruct (IH _ _ _ _ Hrest) as [Hsub Hall].
      split; [by apply sublist_cons|done].
  - intros [= <- <- <-]. split; [apply sublist_nil_l|constructor].
Qed.

(** X17.  The loop stops at the first [None] of the stream: what comes
    after it is not looked at. *)
Theorem nothing_after_none before_none after_none : ∀ parsed,
  comment_loop time before start_time in_mods lower handle_comment
    (before_none ++ None :: after_none) parsed
  = comment_loop time before start_time in_mods lower handle_comment
      before_none parsed.
Proof.
  induction before_none as [|[comment|] rest IH]; intros parsed.
  - done.
  - rewrite <- app_comm_cons, !comment_loop_step.
    destruct (summoning comment && _); [|apply IH].
    destruct (handle_comment comment) as [[]|e]; [|done]. by rewrite IH.
  - done.
Qed.

(** X18.  [self.parsed] never holds more than 200 ids: after the loop it
    is the last 200 ids of what it held before followed by the ids of the
    comments whose handling returned.  A comment whose handling raised is
    not recorded. *)
Theorem parsed_after_loop stream : ∀ parsed handled parsed' r,
  (length parsed ≤ maxlen)%nat →
  comment_loop time before start_time in_mods lower handle_comment stream parsed
  = (handled, parsed', r) →
  (length parsed' ≤ maxlen)%nat ∧
  ∃ recorded,
    parsed' = lastn maxlen (parsed ++ (comment_id <$> recorded)) ∧
    match r with
    | Done _ => handled = recorded
    | Failed _ => ∃ comment, handled = recorded ++ [comment]
    end.
Proof.
  induction stream as [|[comment|] rest IH]; intros parsed handled parsed' r Hlen.
  - intros [= <- <- <-]. split; [done|]. exists []. simpl.
    by rewrite app_nil_r, lastn_short.
  - rewrite comment_loop_step.
    destruct (summoning comment && _); [|by apply IH].
    destruct (handle_comment comment) as [[]|e].
    + destruct (loop rest _) as [[handled1 parsed1] r1] eqn:Hrest.
      intros [= <- <- <-].
      destruct (IH (deque_append (comment_id comment) parsed) _ _ _
                  ltac:(rewrite deque_append_lastn by done; apply length_lastn)
                  Hrest) as (Hlen1 & recorded & Hparsed & Hr).
      split; [done|]. exists (comment :: recorded). split.
      * rewrite Hparsed, deque_append_lastn by done.
        rewrite lastn_app_lastn, <- app_assoc. done.
      * destruct r1; [by subst|]. destruct Hr as [last ->]. by exists last.
    + intros [= <- <- <-]. split; [done|]. exists []. split.
      * simpl. by rewrite app_nil_r, lastn_short.
      * by exists comment.
  - intros [= <- <- <-]. split; [done|]. exists []. simpl.
    by rewrite app_nil_r, lastn_short.
Qed.

(** X19.  A comment is handled only if its id is not among the last 200
    ids of [self.parsed] followed by the ids handled before it in the same
    pass.  So an id that [self.parsed] holds at the start is not handled
    first, and as long as a pass handles at most 200 comments it handles
    no id twice. *)
Theorem no_id_handled_again stream : ∀ parsed handled parsed' r,
  (length parsed ≤ maxlen)%nat →
  comment_loop time before start_time in_mods lower handle_comment stream parsed
  = (handled, parsed', r) →
  (∀ earlier comment later,
     handled = earlier ++ comment :: later →
     comment_id comment ∉ lastn maxlen (parsed ++ (comment_id <$> earlier))) ∧
  ((length handled ≤ maxlen)%nat → NoDup (comment_id <$> handled)).
Proof.
  intros parsed handled parsed' r Hlen Hrun.
  assert (∀ earlier comment later,
            handled = earlier ++ comment :: later →
            comment_id comment ∉ lastn maxlen (parsed ++ (comment_id <$> earlier)))
    as Hgen.
  { revert parsed handled parsed' r Hlen Hrun.
    induction stream as [|[comment0|] rest IH];
      intros parsed handled parsed' r Hlen.
    - intros [= <- <- <-] [|??] ?? [=].
    - rewrite comment_loop_step.
      destruct (summoning comment0 && _) eqn:Hq; [|by apply IH].
      apply andb_true_iff in Hq as [_ Hnew]. apply negb_true_iff in Hnew.
      apply bool_decide_eq_false in Hnew.
      destruct (handle_comment comment0) as [[]|e].
      + destruct (loop rest _) as [[handled1 parsed1] r1] eqn:Hrest.
        intros [= <- <- <-] earlier comment later Hsplit.
        destruct earlier as [|first earlier]; simpl in Hsplit.
        * injection Hsplit as <- _. simpl. by rewrite app_nil_r, lastn_short.
        * injection Hsplit as <- ->.
          pose proof (IH (deque_append (comment_id comment0) parsed) _ _ _
                        ltac:(rewrite deque_append_lastn by done;
                              apply length_lastn)
                        Hrest earlier comment later eq_refl) as Hnot.
          rewrite deque_append_lastn, lastn_app_lastn, <- app_assoc in Hnot
            by done.
          exact Hnot.
      + intros [= <- <- <-] earlier comment later Hsplit.
        destruct earlier as [|first earlier]; simpl in Hsplit.
        * injection Hsplit as <- _. simpl. by rewrite app_nil_r, lastn_short.
        * injection Hsplit as _ Hnil. by destruct earlier.
    - intros [= <- <- <-] [|??] ?? [=]. }
  split; [exact Hgen|]. clear Hrun. revert Hgen.
  induction handled as [|comment handled IH] using rev_ind; intros Hgen Hshort.
  { constructor. }
  rewrite fmap_app. simpl. rewrite length_app in Hshort. simpl in Hshort.
  apply NoDup_app. split; [|split].
  - apply IH; [|lia]. intros earlier c later ->.
    apply (Hgen earlier c (later ++ [comment])). by rewrite <- app_assoc.
  - intros x Hx [->|[]%elem_of_nil]%elem_of_cons.
    apply (Hgen handled comment []); [done|].
    apply lastn_keeps_the_end; [|done]. rewrite length_fmap. lia.
  - apply NoDup_singleton.
Qed.

End ListenProperties.

Lemma handle_message_never_sends_witness :
  ∃ e, handle_message fixed_time "neoliberal"
         (λ _, ["re:"; "comment"; "abc123"; "summons"])
         (λ _, Done "carol") (λ _, Done "carol") (Done the_wiki) (Done "commands")
         "mod1" "re: comment abc123 summons" "usernotes"
       = Failed e.
Proof.
  apply (handle_message_never_sends fixed_time "neoliberal"
           (λ _, ["re:"; "comment"; "abc123"; "summons"])
           (λ _, Done "carol") (λ _, Done "carol") (Done the_wiki)
           (Done "commands") "mod1" "re: comment abc123 summons" "usernotes").
Defined.

Lemma a_pass_result : a_pass = ([c3], ["c3"], Done tt).
Proof. vm_compute. reflexivity. Qed.

Lemma handled_are_summons_witness :
  (Some <$> [c3]) `sublist_of` a_stream ∧
  Forall (λ comment,
            (created_utc comment <? 100)%Z = false ∧
            is_a_mod (comment_author_name comment) = true ∧
            contains "!fashbot" (lower_ascii (comment_body comment)) = true) [c3].
Proof.
  apply (handled_are_summons Z Z.ltb 100%Z is_a_mod lower_ascii (λ _, Done tt)
           a_stream [] [c3] ["c3"] (Done tt)).
  vm_compute. reflexivity.
Defined.

Lemma parsed_after_loop_witness :
  (length ["c3"] ≤ maxlen)%nat ∧
  ∃ recorded,
    ["c3"] = lastn maxlen ([] ++ (comment_id <$> recorded)) ∧ [c3] = recorded.
Proof.
  apply (parsed_after_loop Z Z.ltb 100%Z is_a_mod lower_ascii (λ _, Done tt)
           a_stream [] [c3] ["c3"] (Done tt)).
  - unfold maxlen. simpl. lia.
  - vm_compute. reflexivity.
Defined.

Lemma no_id_handled_again_witness : NoDup (comment_id <$> [c3]).
Proof.
  destruct (no_id_handled_again Z Z.ltb 100%Z is_a_mod lower_ascii (λ _, Done tt)
              a_stream [] [c3] ["c3"] (Done tt)) as [_ Hnodup].
  - unfold maxlen. simpl. lia.
  - vm_compute. reflexivity.
  - apply Hnodup. unfold maxlen. simpl. lia.
Defined.
